(** * system-importer: upload, extraction and deploy routes

    A shallow embedding of the two Next.js route handlers of the
    repository,

      - [src/app/api/upload-system/route.ts]  (module [Upload])
      - [deploy-route.ts]                     (module [Deploy])

    together with the JavaScript string primitives they rely on (module
    [Js]) and the control structure of an [async] handler: a global status
    record that is assigned field by field, early [return]s, exceptions and
    [try]/[catch] (module [Handler]).

    Everything outside the process (the request, the file system, the
    archive tools, [find], [bun]) is an oracle: a record [Env] gives the
    outcome of every call site of the handler. Output to the console is
    left out.

    The page that calls the two routes, the component [Home] in the
    second half of [deploy-route.ts], is the module [Page]: its handlers
    run on the state of the component, and [fetch] is an oracle as well,
    or the answer of the route itself where page and route are put
    together.

    The definitions come first, module by module; the properties follow
    in the modules [JsFacts], [ClassifyFacts], [HandlerFacts],
    [UploadFacts] and [DeployFacts], and then in [HoareFacts],
    [DeployMore], [UploadMore], [UploadListing], [PageFacts] and
    [OverlapFacts].

    Two upload requests can be in flight at once: the modules [Threads]
    and [Overlap] keep the points at which a handler is suspended, and
    run several handlers on the one status record. *)

From Stdlib Require Import String Ascii List Bool Arith PeanoNat Lia ZArith.
From Stdlib Require Decimal DecimalNat DecimalString.
Import ListNotations.

Local Open Scope list_scope.
Local Open Scope string_scope.
Local Open Scope nat_scope.

(* ================================================================== *)
(** * JavaScript strings *)
(* ================================================================== *)

(** Strings are sequences of 8-bit characters. [toLowerCase] and [trim] act
    on the ASCII range, where they agree with the JavaScript methods. *)

Module Js.

Definition code (c : ascii) : nat := nat_of_ascii c.

Definition is_upper (c : ascii) : bool := (65 <=? code c) && (code c <=? 90).
Definition is_lower (c : ascii) : bool := (97 <=? code c) && (code c <=? 122).

Definition lower_char (c : ascii) : ascii :=
  if is_upper c then ascii_of_nat (code c + 32) else c.

Definition upper_char (c : ascii) : ascii :=
  if is_lower c then ascii_of_nat (code c - 32) else c.

(** [String.prototype.toLowerCase] *)
Fixpoint toLowerCase (s : string) : string :=
  match s with
  | EmptyString => EmptyString
  | String c s' => String (lower_char c) (toLowerCase s')
  end.

(** [String.prototype.toUpperCase] *)
Fixpoint toUpperCase (s : string) : string :=
  match s with
  | EmptyString => EmptyString
  | String c s' => String (upper_char c) (toUpperCase s')
  end.

Fixpoint drop (n : nat) (s : string) : string :=
  match n, s with
  | O, _ => s
  | S _, EmptyString => EmptyString
  | S n', String _ s' => drop n' s'
  end.

(** [String.prototype.startsWith] *)
Fixpoint startsWith (s p : string) : bool :=
  match p, s with
  | EmptyString, _ => true
  | String _ _, EmptyString => false
  | String a p', String b s' => Ascii.eqb a b && startsWith s' p'
  end.

(** [String.prototype.endsWith]: the last [length suf] characters of [s]
    are [suf]. *)
Definition endsWith (s suf : string) : bool :=
  (String.length suf <=? String.length s)
  && String.eqb (drop (String.length s - String.length suf) s) suf.

(** [String.prototype.includes] *)
Fixpoint includes (s p : string) : bool :=
  startsWith s p ||
  match s with
  | EmptyString => false
  | String _ s' => includes s' p
  end.

Definition LF : ascii := ascii_of_nat 10.
Definition CR : ascii := ascii_of_nat 13.

(** White space as [\s] and [trim] see it (ASCII range): TAB, LF, VT, FF,
    CR and space. *)
Definition is_space (c : ascii) : bool :=
  ((9 <=? code c) && (code c <=? 13)) || (code c =? 32).

(** Line terminators, which [.] of a regular expression does not match. *)
Definition is_line_terminator (c : ascii) : bool :=
  Ascii.eqb c LF || Ascii.eqb c CR.

Fixpoint trimStart (s : string) : string :=
  match s with
  | EmptyString => EmptyString
  | String c s' => if is_space c then trimStart s' else s
  end.

(** Removes trailing white space: a character is kept when something
    other than white space follows it or it is not white space itself. *)
Fixpoint trimEnd (s : string) : string :=
  match s with
  | EmptyString => EmptyString
  | String c s' =>
      match trimEnd s' with
      | EmptyString => if is_space c then EmptyString else String c EmptyString
      | t => String c t
      end
  end.

(** [String.prototype.trim] *)
Definition trim (s : string) : string := trimEnd (trimStart s).

(** Truthiness of a string: the empty string is falsy. *)
Definition truthy (s : string) : bool :=
  match s with EmptyString => false | _ => true end.

(** [s.split('\n')]: always at least one piece. *)
Fixpoint split_lines (s : string) : list string :=
  match s with
  | EmptyString => [EmptyString]
  | String c s' =>
      if Ascii.eqb c LF then EmptyString :: split_lines s'
      else match split_lines s' with
           | [] => [String c EmptyString]
           | l :: ls => String c l :: ls
           end
  end.

(** [s.replace(p, '')] with a string pattern: the first occurrence of [p]
    is removed. *)
Fixpoint remove_first (p s : string) : string :=
  if startsWith s p then drop (String.length p) s
  else match s with
       | EmptyString => EmptyString
       | String c s' => String c (remove_first p s')
       end.

(** [s.replace(/^\//, '')] *)
Definition strip_leading_slash (s : string) : string :=
  match s with
  | String c s' => if Ascii.eqb c "/" then s' else s
  | EmptyString => EmptyString
  end.

(** [Array.prototype.slice(0, n)] *)
Definition slice0 {A} (n : nat) (l : list A) : list A := firstn n l.

(** ** Regular expressions of the shape [/(?:m1|m2|...)\s*(.+)/]

    [match] looks for the leftmost position at which one of the markers
    starts; there the white space after the marker is taken greedily and
    given back one character at a time until [(.+)] finds a character that
    is not a line terminator; the capture then runs up to the next line
    terminator. [min_space] is 0 for [\s*] and 1 for [\s+]. *)

Fixpoint take_while (f : ascii -> bool) (s : string) : string :=
  match s with
  | EmptyString => EmptyString
  | String c s' => if f c then String c (take_while f s') else EmptyString
  end.

Fixpoint span_length (f : ascii -> bool) (s : string) : nat :=
  match s with
  | EmptyString => 0
  | String c s' => if f c then S (span_length f s') else 0
  end.

Definition not_line_terminator (c : ascii) : bool := negb (is_line_terminator c).

(** Tries to start the capture after [k], [k-1], ..., [min_space]
    characters of white space. *)
Fixpoint capture_from (rest : string) (min_space k : nat) : option string :=
  let here := drop k rest in
  let give_back :=
    match k with
    | O => None
    | S k' => if min_space <=? k' then capture_from rest min_space k' else None
    end in
  match here with
  | String c _ =>
      if not_line_terminator c then Some (take_while not_line_terminator here)
      else give_back
  | EmptyString => give_back
  end.

Definition capture_after_marker (min_space : nat) (rest : string) : option string :=
  let w := span_length is_space rest in
  if min_space <=? w then capture_from rest min_space w else None.

Fixpoint capture_here (markers : list string) (min_space : nat) (s : string)
  : option string :=
  match markers with
  | [] => None
  | m :: ms =>
      if startsWith s m then
        match capture_after_marker min_space (drop (String.length m) s) with
        | Some c => Some c
        | None => capture_here ms min_space s
        end
      else capture_here ms min_space s
  end.

(** [line.match(/(?:m1|m2)\s*(.+)/)], giving [match[1]]. *)
Fixpoint regex_capture (markers : list string) (min_space : nat) (s : string)
  : option string :=
  match capture_here markers min_space s with
  | Some c => Some c
  | None =>
      match s with
      | EmptyString => None
      | String _ s' => regex_capture markers min_space s'
      end
  end.

(** Decimal digits. *)
Definition is_digit (c : ascii) : bool := (48 <=? code c) && (code c <=? 57).

Fixpoint all_digits (s : string) : bool :=
  match s with
  | EmptyString => true
  | String c s' => is_digit c && all_digits s'
  end.

(** Decimal rendering of a natural number, as a template literal does. *)
Definition decimal (n : nat) : string := DecimalString.NilZero.string_of_uint (Nat.to_uint n).

(** ** [parseInt]

    Leading white space is skipped, a sign and a [0x] prefix are read, then
    the longest run of digits of the radix; [None] is [NaN]. *)

Definition digit_value (radix : nat) (c : ascii) : option nat :=
  let n := code c in
  let v :=
    if (48 <=? n) && (n <=? 57) then Some (n - 48)
    else if (97 <=? n) && (n <=? 122) then Some (n - 87)
    else if (65 <=? n) && (n <=? 90) then Some (n - 55)
    else None in
  match v with
  | Some d => if d <? radix then Some d else None
  | None => None
  end.

Fixpoint parse_digits (radix : nat) (s : string) (acc : option nat) : option nat :=
  match s with
  | EmptyString => acc
  | String c s' =>
      match digit_value radix c with
      | Some d =>
          parse_digits radix s'
            (Some (radix * match acc with Some a => a | None => 0 end + d))
      | None => acc
      end
  end.

Definition parseInt (s : string) : option Z :=
  let s1 := trimStart s in
  let '(negative, s2) :=
    match s1 with
    | String c r =>
        if Ascii.eqb c "-" then (true, r)
        else if Ascii.eqb c "+" then (false, r)
        else (false, s1)
    | EmptyString => (false, EmptyString)
    end in
  let '(radix, s3) :=
    if startsWith s2 "0x" || startsWith s2 "0X" then (16, drop 2 s2)
    else (10, s2) in
  match parse_digits radix s3 None with
  | None => None
  | Some n => Some (if negative then (- Z.of_nat n)%Z else Z.of_nat n)
  end.

(** [x || y] for a number [x]: [NaN] and 0 are falsy. *)
Definition number_or (x : option Z) (y : Z) : Z :=
  match x with
  | Some v => if (v =? 0)%Z then y else v
  | None => y
  end.

(** [x || y] for a possibly undefined string [x]. *)
Definition string_or (x : option string) (y : string) : string :=
  match x with
  | Some v => if truthy v then v else y
  | None => y
  end.

End Js.

(* ================================================================== *)
(** * The upload route, part one: classification *)
(* ================================================================== *)

Module Classify.

(** [type FileType = 'tar' | 'tar.gz' | 'zip' | 'rar' | 'unknown'] *)
Inductive FileType : Type := Tar | TarGz | Zip | Rar | Unknown.

Definition FileType_eqb (a b : FileType) : bool :=
  match a, b with
  | Tar, Tar | TarGz, TarGz | Zip, Zip | Rar, Rar | Unknown, Unknown => true
  | _, _ => false
  end.

(** The string the type stands for. *)
Definition FileType_string (t : FileType) : string :=
  match t with
  | Tar => "tar" | TarGz => "tar.gz" | Zip => "zip" | Rar => "rar"
  | Unknown => "unknown"
  end.

(** [detectFileType], route.ts lines 27-34. *)
Definition detectFileType (filename : string) : FileType :=
  let lowerName := Js.toLowerCase filename in
  if Js.endsWith lowerName ".tar.gz" || Js.endsWith lowerName ".tgz" then TarGz
  else if Js.endsWith lowerName ".tar" then Tar
  else if Js.endsWith lowerName ".zip" then Zip
  else if Js.endsWith lowerName ".rar" then Rar
  else Unknown.

(** ** The specification's notion of a case-insensitive suffix

    Stated without reference to [toLowerCase]: [c] agrees with the
    (lower-case) pattern character [x] when it is [x] itself or the capital
    letter of [x]. *)

Definition agrees (c x : ascii) : Prop :=
  c = x \/ (Js.is_lower x = true /\ Js.code c + 32 = Js.code x).

Inductive agrees_all : string -> string -> Prop :=
| agrees_nil : agrees_all EmptyString EmptyString
| agrees_cons c x s p :
    agrees c x -> agrees_all s p -> agrees_all (String c s) (String x p).

(** [s] ends, up to case, with [suf]. *)
Definition ends_ci (s suf : string) : Prop :=
  exists pre tl, s = pre ++ tl /\ agrees_all tl suf.

(** A pattern without capital letters. *)
Fixpoint no_capital (p : string) : bool :=
  match p with
  | EmptyString => true
  | String x p' => negb (Js.is_upper x) && no_capital p'
  end.

(** ** The specification's classification

    The suffixes are tried in the order of the specification: a kind is
    given when its suffix matches and none of the earlier ones does. *)

Definition targz_suffix (f : string) : Prop :=
  ends_ci f ".tar.gz" \/ ends_ci f ".tgz".

Definition Classified (f : string) (k : FileType) : Prop :=
  match k with
  | TarGz => targz_suffix f
  | Tar => ~ targz_suffix f /\ ends_ci f ".tar"
  | Zip => ~ targz_suffix f /\ ~ ends_ci f ".tar" /\ ends_ci f ".zip"
  | Rar =>
      ~ targz_suffix f /\ ~ ends_ci f ".tar" /\ ~ ends_ci f ".zip"
      /\ ends_ci f ".rar"
  | Unknown =>
      ~ targz_suffix f /\ ~ ends_ci f ".tar" /\ ~ ends_ci f ".zip"
      /\ ~ ends_ci f ".rar"
  end.

End Classify.

(* ================================================================== *)
(** * Control structure of a route handler *)
(* ================================================================== *)

(** A handler runs against the process-wide status record. It may assign
    the record or one of its fields, perform an effect on the world outside
    the process, [return] a response early, or throw. The log keeps, in
    order, the status after every assignment and every effect attempted, so
    that properties of all intermediate states can be stated. *)

Module Handler.

(** A thrown value: an [Error] with its message, or anything else
    ([error instanceof Error] is what the handlers test). *)
Inductive exn : Type :=
| ErrorObj (message : string)
| NotAnError.

(** The outcome of awaiting a promise. *)
Inductive result (A : Type) : Type :=
| Resolves (a : A)
| Rejects (e : exn).
Arguments Resolves {A} a.
Arguments Rejects {A} e.

(** Effects that change the world outside the process. *)
Inductive effect : Type :=
| Mkdir (path : string)                 (* mkdir(path, { recursive: true }) *)
| Rm (path : string)                    (* rm(path, { recursive: true, force: true }) *)
| WriteFile (path : string)             (* writeFile(path, data) *)
| Exec (command : string).              (* execAsync(command, ...) *)

Section Monad.
Context {S R : Type}.

Inductive event : Type :=
| Assigned (s : S)
| Performed (e : effect).

Record world : Type := { current : S; log : list event }.

Inductive outcome (A : Type) : Type :=
| Normal (a : A)
| Returned (r : R)
| Thrown (e : exn).

Definition M (A : Type) : Type := world -> outcome A * world.

Definition ret {A} (a : A) : M A := fun w => (Normal A a, w).

Definition bind {A B} (m : M A) (k : A -> M B) : M B :=
  fun w =>
    match m w with
    | (Normal _ a, w') => k a w'
    | (Returned _ r, w') => (Returned B r, w')
    | (Thrown _ e, w') => (Thrown B e, w')
    end.

(** [status = ...] or [status.field = ...] *)
Definition assign (f : S -> S) : M unit :=
  fun w =>
    let s := f (current w) in
    (Normal unit tt, {| current := s; log := log w ++ [Assigned s] |}).

Definition read : M S := fun w => (Normal S (current w), w).

(** [await] of a promise that does not change the world. *)
Definition await {A} (r : result A) : M A :=
  fun w =>
    match r with
    | Resolves a => (Normal A a, w)
    | Rejects e => (Thrown A e, w)
    end.

(** [await] of an effect: it is logged when it is attempted. *)
Definition perform {A} (e : effect) (r : result A) : M A :=
  fun w => await r {| current := current w; log := log w ++ [Performed e] |}.

(** [return response] *)
Definition returning {A} (r : R) : M A := fun w => (Returned A r, w).

(** [try { m } catch (error) { h error }] *)
Definition try_catch {A} (m : M A) (h : exn -> M A) : M A :=
  fun w =>
    match m w with
    | (Thrown _ e, w') => h e w'
    | other => other
    end.

(** [for (const x of l) { body x }] *)
Fixpoint for_of {A} (l : list A) (body : A -> M unit) : M unit :=
  match l with
  | [] => ret tt
  | x :: l' => bind (body x) (fun _ => for_of l' body)
  end.

(** The response of a handler whose body is [m]; [None] stands for a
    rejection that leaves the handler. *)
Definition respond (m : M R) (w : world) : option R * world :=
  match m w with
  | (Normal _ r, w') => (Some r, w')
  | (Returned _ r, w') => (Some r, w')
  | (Thrown _ _, w') => (None, w')
  end.

(** The statuses a log went through, one for each assignment, and the
    effects it attempted. *)
Fixpoint assigned (l : list event) : list S :=
  match l with
  | [] => []
  | Assigned s :: l' => s :: assigned l'
  | Performed _ :: l' => assigned l'
  end.

Fixpoint performed (l : list event) : list effect :=
  match l with
  | [] => []
  | Assigned _ :: l' => performed l'
  | Performed e :: l' => e :: performed l'
  end.

(** [m] ends normally whatever the status it starts from. *)
Definition completes {A} (m : M A) : Prop :=
  forall w, exists a w', m w = (Normal A a, w').

(** [m] never leaves the handler with a response. *)
Definition never_returns {A} (m : M A) : Prop :=
  forall w r w', m w <> (Returned A r, w').

(** The outcome of [m] does not depend on the status it starts from. *)
Definition oblivious {A} (m : M A) : Prop :=
  forall w1 w2, fst (m w1) = fst (m w2).

End Monad.

Arguments event : clear implicits.
Arguments world : clear implicits.
Arguments outcome : clear implicits.
Arguments M : clear implicits.
Arguments Normal {R A} a.
Arguments Returned {R A} r.
Arguments Thrown {R A} e.

(** [error instanceof Error ? error.message : fallback] *)
Definition message_or (e : exn) (fallback : string) : string :=
  match e with
  | ErrorObj m => m
  | NotAnError => fallback
  end.

(** [join(a, b)] of [path], for an absolute [a] without trailing slash
    and a plain relative [b]. *)
Definition join (a b : string) : string := a ++ "/" ++ b.

(** A double quote, and a string between double quotes. *)
Definition dquote : string := String (ascii_of_nat 34) EmptyString.
Definition quoted (s : string) : string := dquote ++ s ++ dquote.

End Handler.

Declare Scope handler_scope.
Delimit Scope handler_scope with handler.
Notation "x <- m ;; k" := (Handler.bind m (fun x => k))
  (at level 61, m at next level, right associativity) : handler_scope.
Notation "m ;; k" := (Handler.bind m (fun _ => k))
  (at level 61, right associativity) : handler_scope.

(* ================================================================== *)
(** * The upload route: [src/app/api/upload-system/route.ts] *)
(* ================================================================== *)

Module Upload.
Import Classify Handler.
Local Open Scope handler_scope.

(** ** The status record (lines 15-24) *)

Inductive phase : Type := Idle | Extracting | Success | Error.

Inductive kind : Type := File | Directory.

Record entry : Type := { path : string; size : nat; type : kind }.

(** The progress messages. Their texts are fixed sentences with, for
    some, a number or a name put in; the constructors say which. *)
Inductive text : Type :=
| NoText                              (* '' *)
| ReadingFile                         (* line 129 *)
| SavingFile (bytes : nat)            (* line 158, the size shown in MB *)
| WritingToDisk                       (* line 174 *)
| ExtractingFrom (upper : string)     (* line 184, fileType.toUpperCase() *)
| Unpacking                           (* line 200 *)
| FoundItems (n : nat)                (* line 224 *)
| ListingFiles                        (* line 227 *)
| ExtractedFine.                      (* line 282 *)

Record ExtractionStatus : Type := {
  status : phase;
  message : text;
  progress : nat;
  files : list entry;
  totalFiles : Z;
  error : string;
  fileType : string;
  extractedFilePath : string
}.

(** [let extractionStatus = { status: 'idle', ... }] *)
Definition extractionStatus : ExtractionStatus :=
  {| status := Idle; message := NoText; progress := 0; files := [];
     totalFiles := 0%Z; error := EmptyString; fileType := EmptyString;
     extractedFilePath := EmptyString |}.

Definition set_status (v : phase) (s : ExtractionStatus) : ExtractionStatus :=
  {| status := v; message := message s; progress := progress s;
     files := files s; totalFiles := totalFiles s; error := error s;
     fileType := fileType s; extractedFilePath := extractedFilePath s |}.

Definition set_message (v : text) (s : ExtractionStatus) : ExtractionStatus :=
  {| status := status s; message := v; progress := progress s;
     files := files s; totalFiles := totalFiles s; error := error s;
     fileType := fileType s; extractedFilePath := extractedFilePath s |}.

Definition set_progress (v : nat) (s : ExtractionStatus) : ExtractionStatus :=
  {| status := status s; message := message s; progress := v;
     files := files s; totalFiles := totalFiles s; error := error s;
     fileType := fileType s; extractedFilePath := extractedFilePath s |}.

Definition set_files (v : list entry) (s : ExtractionStatus) : ExtractionStatus :=
  {| status := status s; message := message s; progress := progress s;
     files := v; totalFiles := totalFiles s; error := error s;
     fileType := fileType s; extractedFilePath := extractedFilePath s |}.

Definition set_totalFiles (v : Z) (s : ExtractionStatus) : ExtractionStatus :=
  {| status := status s; message := message s; progress := progress s;
     files := files s; totalFiles := v; error := error s;
     fileType := fileType s; extractedFilePath := extractedFilePath s |}.

Definition set_error (v : string) (s : ExtractionStatus) : ExtractionStatus :=
  {| status := status s; message := message s; progress := progress s;
     files := files s; totalFiles := totalFiles s; error := v;
     fileType := fileType s; extractedFilePath := extractedFilePath s |}.

Definition set_fileType (v : string) (s : ExtractionStatus) : ExtractionStatus :=
  {| status := status s; message := message s; progress := progress s;
     files := files s; totalFiles := totalFiles s; error := error s;
     fileType := v; extractedFilePath := extractedFilePath s |}.

(** ** Responses *)

Inductive body : Type :=
| JustError (error : string)
    (* { error } *)
| StatusError (error : string)
    (* { status: 'error', error } *)
| StatusSuccess (files : list entry) (totalFiles : Z) (fileType : FileType)
    (extractedPath : string).
    (* { status: 'success', message, files, totalFiles, fileType, extractedPath } *)

Record response : Type := { http : nat; json : body }.

(** ** Error texts *)

Definition err_no_file : string := "لم يتم العثور على ملف".
Definition err_unsupported_format : string :=
  "صيغة الملف غير مدعومة. الصيغ المدعومة: .tar, .tar.gz, .zip, .rar".
Definition err_unsupported_type : string := "نوع ملف غير مدعوم".
Definition err_extraction : string := "خطأ في استخراج الملف".
Definition err_empty_archive : string := "لم يتم العثور على ملفات داخل الأرشيف".
Definition err_unexpected : string := "حدث خطأ غير متوقع".

(** ** The world of one request *)

Record UploadedFile : Type := { name : string; bytes : nat }.

Record Env : Type := {
  cwd : string;                               (* process.cwd() *)
  tmpdir : string;                            (* tmpdir() *)
  now : nat;                                  (* Date.now(), line 162 *)
  formData : result (option UploadedFile);    (* lines 139-140 *)
  mkdirTemp : result unit;                    (* line 163 *)
  arrayBuffer : result unit;                  (* line 178 *)
  writeTemp : result unit;                    (* line 181 *)
  extractedDirExists : bool;                  (* line 192 *)
  rmExtracted : result unit;                  (* line 194 *)
  mkdirExtracted : result unit;               (* line 196 *)
  runExtract : result (string * string);      (* line 71: stdout, stderr *)
  treeFiles : list string;
    (* the regular files below the extraction directory once the tool
       has run, by the path find prints for them *)
  treeDirs : list string;
    (* likewise the directories, the extraction directory included *)
  runFindFiles : option exn;                  (* line 231 rejects? *)
  runFindDirs : option exn;                   (* line 234 rejects? *)
  runCount : option exn;                      (* line 240 rejects? *)
  statSize : string -> result nat;            (* line 263 *)
  rmTemp : result unit                        (* line 287 *)
}.

(** ** The shell tools of lines 231-240 *)

Definition newline : string := String Js.LF EmptyString.

(** What [find] prints: every path followed by a line feed. *)
Definition print_lines (paths : list string) : string :=
  String.concat EmptyString (map (fun p => p ++ newline) paths).

(** [head -n n]: the first [n] lines. *)
Fixpoint head_n (s : string) (n : nat) : string :=
  match s with
  | EmptyString => EmptyString
  | String c s' =>
      match n with
      | O => EmptyString
      | S n' => String c (head_n s' (if Ascii.eqb c Js.LF then n' else n))
      end
  end.

(** [wc -l]: the number of line feeds of its input. *)
Fixpoint wc_l (s : string) : nat :=
  match s with
  | EmptyString => 0
  | String c s' => (if Ascii.eqb c Js.LF then 1 else 0) + wc_l s'
  end.

(** [find dir -type f | wc -l]: the number of line feeds in what [find]
    prints, in decimal, on a line. A path that holds a line feed is
    counted once more for each. *)
Definition count_line (paths : list string) : string :=
  Js.decimal (wc_l (print_lines paths)) ++ newline.

Definition stdout_of (rejects : option exn) (out : string) : result string :=
  match rejects with
  | Some e => Rejects e
  | None => Resolves out
  end.

(** ** [extractArchive] (lines 37-113) *)

Record ExtractionResult : Type := {
  success : bool;
  items : list string;
  failure : option string      (* the optional field [error] *)
}.

Definition extract_command (filePath targetDir : string) (fileType : FileType)
  : option string :=
  match fileType with
  | Tar =>
      Some ("tar -xvf " ++ quoted filePath ++ " -C " ++ quoted targetDir ++ " 2>&1")
  | TarGz =>
      Some ("tar -xzvf " ++ quoted filePath ++ " -C " ++ quoted targetDir ++ " 2>&1")
  | Zip =>
      Some ("unzip -o " ++ quoted filePath ++ " -d " ++ quoted targetDir ++ " 2>&1")
  | Rar =>
      Some ("unrar x -o+ " ++ quoted filePath ++ " "
            ++ quoted (targetDir ++ "/") ++ " 2>&1")
  | Unknown => None
  end.

(** Lines 79-100: the member names found in the transcript. *)
Definition parse_items (fileType : FileType) (output : string) : list string :=
  match fileType with
  | Zip =>
      filter Js.truthy
        (map (fun line =>
                match Js.regex_capture ["inflating:"; "creating:"] 0 line with
                | Some m => Js.trim m
                | None => EmptyString
                end)
           (filter (fun line =>
                      Js.includes line "inflating:" || Js.includes line "creating:")
              (Js.split_lines output)))
  | Rar =>
      filter Js.truthy
        (map (fun line =>
                match Js.regex_capture ["Extracting"; "Creating"] 1 line with
                | Some m => Js.trim m
                | None => EmptyString
                end)
           (filter (fun line =>
                      Js.includes line "Extracting" || Js.includes line "Creating")
              (Js.split_lines output)))
  | _ =>
      filter (fun f => Js.truthy (Js.trim f)) (Js.split_lines output)
  end.

Definition extractArchive (env : Env) (filePath targetDir : string)
    (fileType : FileType)
  : M ExtractionStatus response ExtractionResult :=
  try_catch
    (match extract_command filePath targetDir fileType with
     | None =>
         ret {| success := false; items := [];
                failure := Some err_unsupported_type |}
     | Some command =>
         out <- perform (Exec command) (runExtract env) ;;
         let output := fst out ++ snd out in
         let extractedItems := parse_items fileType output in
         ret {| success := true; items := extractedItems; failure := None |}
     end)
    (fun error =>
       ret {| success := false; items := [];
              failure := Some (message_or error err_extraction) |}).

(** ** [POST] (lines 115-314) *)

Definition extractedDir (env : Env) : string := join (cwd env) "extracted-system".

Definition tempDir (env : Env) : string :=
  join (tmpdir env) ("upload-" ++ Js.decimal (now env)).

(** Lines 166-169. *)
Definition tempExt (fileType : FileType) : string :=
  match fileType with
  | TarGz => ".tar.gz"
  | Zip => ".zip"
  | Rar => ".rar"
  | _ => ".tar"
  end.

Definition tempFilePath (env : Env) (fileType : FileType) : string :=
  join (tempDir env) ("upload" ++ tempExt fileType).

Definition find_files_command (env : Env) : string :=
  "find " ++ quoted (extractedDir env) ++ " -type f 2>/dev/null | head -n 1000".
Definition find_dirs_command (env : Env) : string :=
  "find " ++ quoted (extractedDir env) ++ " -type d 2>/dev/null | head -n 500".
Definition count_command (env : Env) : string :=
  "find " ++ quoted (extractedDir env) ++ " -type f 2>/dev/null | wc -l".

(** [p.replace(extractedDir, '').replace(/^\//, '')] *)
Definition relativePath (env : Env) (p : string) : string :=
  Js.strip_leading_slash (Js.remove_first (extractedDir env) p).

(** Lines 247-256. *)
Definition directory_entries (env : Env) (dirs : list string) : list entry :=
  flat_map
    (fun dir =>
       let relativePath := relativePath env dir in
       if Js.truthy relativePath
       then [{| path := relativePath; size := 0; type := Directory |}]
       else [])
    (Js.slice0 100 dirs).

(** Lines 259-277; a failing [stat] gives size 0. *)
Definition file_entries (env : Env) (files : list string) : list entry :=
  flat_map
    (fun file =>
       let relativePath := relativePath env file in
       if Js.truthy relativePath
       then [{| path := relativePath;
                size := match statSize env file with
                        | Resolves n => n
                        | Rejects _ => 0
                        end;
                type := File |}]
       else [])
    (Js.slice0 500 files).

Definition nonblank_lines (out : string) : list string :=
  filter (fun f => Js.truthy (Js.trim f)) (Js.split_lines out).

(** Lines 127-136: the record every request starts from. *)
Definition reset_status : ExtractionStatus :=
  {| status := Extracting; message := ReadingFile; progress := 5;
     files := []; totalFiles := 0%Z; error := EmptyString; fileType := EmptyString;
     extractedFilePath := EmptyString |}.

Definition POST (env : Env) : M ExtractionStatus response response :=
  try_catch
    ((* Reset status *)
     assign (fun _ => reset_status) ;;
     (* Parse form data *)
     file <- await (formData env) ;;
     match file with
     | None => returning {| http := 400; json := JustError err_no_file |}
     | Some file =>
     (* Detect file type *)
     let fileType := detectFileType (name file) in
     if FileType_eqb fileType Unknown then
       returning {| http := 400; json := JustError err_unsupported_format |}
     else
     assign (set_fileType (FileType_string fileType)) ;;
     assign (set_message (SavingFile (bytes file))) ;;
     assign (set_progress 10) ;;
     (* Create temp directory *)
     perform (Mkdir (tempDir env)) (mkdirTemp env) ;;
     assign (set_message WritingToDisk) ;;
     assign (set_progress 15) ;;
     await (arrayBuffer env) ;;
     perform (WriteFile (tempFilePath env fileType)) (writeTemp env) ;;
     assign (set_message (ExtractingFrom (Js.toUpperCase (FileType_string fileType)))) ;;
     assign (set_progress 25) ;;
     (* Clean up previous extraction *)
     (if extractedDirExists env
      then perform (Rm (extractedDir env)) (rmExtracted env)
      else ret tt) ;;
     perform (Mkdir (extractedDir env)) (mkdirExtracted env) ;;
     (* Extract archive based on type *)
     assign (set_message Unpacking) ;;
     assign (set_progress 35) ;;
     extractionResult <-
       extractArchive env (tempFilePath env fileType) (extractedDir env) fileType ;;
     if negb (success extractionResult) then
       assign (set_status Error) ;;
       assign (set_error (Js.string_or (failure extractionResult) err_extraction)) ;;
       st <- read ;;
       returning {| http := 500; json := StatusError (error st) |}
     else if List.length (items extractionResult) =? 0 then
       assign (set_status Error) ;;
       assign (set_error err_empty_archive) ;;
       st <- read ;;
       returning {| http := 500; json := StatusError (error st) |}
     else
     assign (set_progress 55) ;;
     assign (set_message (FoundItems (List.length (items extractionResult)))) ;;
     (* List all extracted files *)
     assign (set_message ListingFiles) ;;
     assign (set_progress 65) ;;
     allFilesOutput <-
       perform (Exec (find_files_command env))
         (stdout_of (runFindFiles env) (head_n (print_lines (treeFiles env)) 1000)) ;;
     let files := nonblank_lines allFilesOutput in
     allDirsOutput <-
       perform (Exec (find_dirs_command env))
         (stdout_of (runFindDirs env) (head_n (print_lines (treeDirs env)) 500)) ;;
     let dirs := nonblank_lines allDirsOutput in
     (* Get total count *)
     countOutput <-
       perform (Exec (count_command env))
         (stdout_of (runCount env) (count_line (treeFiles env))) ;;
     let totalFiles :=
       Js.number_or (Js.parseInt (Js.trim countOutput))
         (Z.of_nat (List.length files)) in
     (* Build file list *)
     let fileList := (directory_entries env dirs ++ file_entries env files)%list in
     assign (set_files fileList) ;;
     assign (set_totalFiles totalFiles) ;;
     assign (set_status Success) ;;
     assign (set_message ExtractedFine) ;;
     assign (set_progress 100) ;;
     (* Clean up temp file *)
     try_catch (perform (Rm (tempDir env)) (rmTemp env)) (fun _ => ret tt) ;;
     returning {| http := 200;
                  json := StatusSuccess fileList totalFiles fileType
                            (extractedDir env) |}
     end)
    (fun e =>
       assign (set_status Error) ;;
       assign (set_error (message_or e err_unexpected)) ;;
       st <- read ;;
       returning {| http := 500; json := StatusError (error st) |}).

(** One request, run against the status the process holds. *)
Definition handle (env : Env) (s : ExtractionStatus)
  : option response * world ExtractionStatus :=
  respond (POST env) {| current := s; log := [] |}.

(** [GET]: the status as a poller sees it. *)
Definition GET (s : ExtractionStatus) : ExtractionStatus := s.

(** ** Notions of the specification *)

(** The invariant of the status record: 100 percent only with success, an
    error text only with the error phase. *)
Definition coherent (s : ExtractionStatus) : Prop :=
  (progress s = 100 -> status s = Success)
  /\ (error s <> EmptyString -> status s = Error).

(** Every status a poller can see while the requests [envs] are served one
    after the other, starting from [s]. *)
Fixpoint observable (envs : list Env) (s : ExtractionStatus)
  : list ExtractionStatus :=
  s :: match envs with
       | [] => []
       | env :: rest =>
           let w := snd (handle env s) in
           (assigned (log w) ++ observable rest (current w))%list
       end.

(** The request carried [file] and got as far as running the extraction
    tool on it. *)
Definition extraction_ran (env : Env) (s : ExtractionStatus)
    (file : UploadedFile) : Prop :=
  formData env = Resolves (Some file)
  /\ exists command,
      extract_command (tempFilePath env (detectFileType (name file)))
        (extractedDir env) (detectFileType (name file)) = Some command
      /\ In (Performed (Exec command)) (log (snd (handle env s))).

Definition is_file (e : entry) : bool :=
  match type e with File => true | Directory => false end.

Definition is_directory (e : entry) : bool :=
  match type e with File => false | Directory => true end.

Definition succeeded (r : option response) : Prop :=
  exists r', r = Some r' /\ http r' = 200.

(** ** Sample requests *)

(** A request in a world where every call succeeds: the upload is named
    [filename], the extraction tool prints [transcript], and afterwards the
    extraction directory holds [tree_files] and [tree_dirs]. *)
Definition smooth (filename transcript : string)
    (tree_files tree_dirs : list string) : Env :=
  {| cwd := "/app"; tmpdir := "/tmp"; now := 4242;
     formData := Resolves (Some {| name := filename; bytes := 2048 |});
     mkdirTemp := Resolves tt; arrayBuffer := Resolves tt;
     writeTemp := Resolves tt; extractedDirExists := true;
     rmExtracted := Resolves tt; mkdirExtracted := Resolves tt;
     runExtract := Resolves (transcript, EmptyString);
     treeFiles := tree_files; treeDirs := tree_dirs;
     runFindFiles := None; runFindDirs := None; runCount := None;
     statSize := fun _ => Resolves 42; rmTemp := Resolves tt |}.

(** A tarball with one directory and one file in it. *)
Definition good_upload : Env :=
  smooth "system.tar.gz" ("src/" ++ newline ++ "src/app.ts" ++ newline)
    ["/app/extracted-system/src/app.ts"]
    ["/app/extracted-system"; "/app/extracted-system/src"].

(** What the response lists for it. *)
Definition good_listing : list entry :=
  [ {| path := "src"; size := 0; type := Directory |};
    {| path := "src/app.ts"; size := 42; type := File |} ].

(** A tarball of 600 files in one directory. *)
Definition big_upload : Env :=
  smooth "big.tar" ("f0" ++ newline)
    (map (fun n => "/app/extracted-system/f" ++ Js.decimal n) (seq 0 600))
    ["/app/extracted-system"].

(** A text file. *)
Definition text_upload : Env := smooth "notes.txt" EmptyString [] [].

(** A tarball without members: [tar] prints nothing and exits with 0. *)
Definition empty_upload : Env :=
  smooth "empty.tar" EmptyString [] ["/app/extracted-system"].

(** A tarball of one file whose name is [a], a line feed, [b]: [tar]
    prints the name with the line feed escaped, [find] prints it as it
    is, and [stat] finds neither of the two lines. *)
Definition newline_upload : Env :=
  {| cwd := "/app"; tmpdir := "/tmp"; now := 4242;
     formData := Resolves (Some {| name := "odd.tar"; bytes := 2048 |});
     mkdirTemp := Resolves tt; arrayBuffer := Resolves tt;
     writeTemp := Resolves tt; extractedDirExists := false;
     rmExtracted := Resolves tt; mkdirExtracted := Resolves tt;
     runExtract := Resolves ("a\nb" ++ newline, EmptyString);
     treeFiles := ["/app/extracted-system/a" ++ newline ++ "b"];
     treeDirs := ["/app/extracted-system"];
     runFindFiles := None; runFindDirs := None; runCount := None;
     statSize := fun _ => Rejects (ErrorObj "ENOENT: no such file or directory");
     rmTemp := Resolves tt |}.

(** What the response lists for it. *)
Definition newline_listing : list entry :=
  [ {| path := "a"; size := 0; type := File |};
    {| path := "b"; size := 0; type := File |} ].

(** A file that is not an archive under an archive's name: [tar] fails. *)
Definition broken_upload : Env :=
  {| cwd := "/app"; tmpdir := "/tmp"; now := 4242;
     formData := Resolves (Some {| name := "broken.tar"; bytes := 2048 |});
     mkdirTemp := Resolves tt; arrayBuffer := Resolves tt;
     writeTemp := Resolves tt; extractedDirExists := false;
     rmExtracted := Resolves tt; mkdirExtracted := Resolves tt;
     runExtract := Rejects (ErrorObj "Command failed: tar -xvf");
     treeFiles := []; treeDirs := ["/app/extracted-system"];
     runFindFiles := None; runFindDirs := None; runCount := None;
     statSize := fun _ => Resolves 42; rmTemp := Resolves tt |}.

End Upload.

(* ================================================================== *)
(** * The deploy route: [deploy-route.ts] *)
(* ================================================================== *)

Module Deploy.
Import Handler.
Local Open Scope handler_scope.

(** ** The status record (lines 11-17) *)

Inductive phase : Type :=
  Idle | Deploying | Installing | Migrating | Success | Error.

Record DeployStatus : Type := {
  status : phase;
  message : string;
  progress : nat;
  error : string;
  step : string
}.

(** [let deployStatus = { status: 'idle', ... }] *)
Definition deployStatus : DeployStatus :=
  {| status := Idle; message := EmptyString; progress := 0;
     error := EmptyString; step := EmptyString |}.

Definition set_status (v : phase) (s : DeployStatus) : DeployStatus :=
  {| status := v; message := message s; progress := progress s;
     error := error s; step := step s |}.

Definition set_message (v : string) (s : DeployStatus) : DeployStatus :=
  {| status := status s; message := v; progress := progress s;
     error := error s; step := step s |}.

Definition set_progress (v : nat) (s : DeployStatus) : DeployStatus :=
  {| status := status s; message := message s; progress := v;
     error := error s; step := step s |}.

Definition set_error (v : string) (s : DeployStatus) : DeployStatus :=
  {| status := status s; message := message s; progress := progress s;
     error := v; step := step s |}.

Definition set_step (v : string) (s : DeployStatus) : DeployStatus :=
  {| status := status s; message := message s; progress := progress s;
     error := error s; step := v |}.

(** ** Responses *)

(** One element of [steps]: [{ step, status, message }]. *)
Record report : Type := {
  report_step : string;
  report_status : string;
  report_message : string
}.

Inductive body : Type :=
| JustError (error : string)
    (* { error } *)
| StatusError (error : string)
    (* { status: 'error', error } *)
| StatusSuccess (message : string) (progress : nat) (steps : list report).
    (* { status: 'success', message, progress, steps } *)

Record response : Type := { http : nat; json : body }.

Definition err_no_extraction : string :=
  "لم يتم العثور على ملفات مستخرجة. قم برفع الملف أولاً.".
Definition err_deploy : string := "حدث خطأ أثناء النشر".

(** ** The world of one request *)

Record Env : Type := {
  cwd : string;                           (* process.cwd() *)
  inExtracted : string -> bool;
    (* existsSync of a path of the extracted tree, lines 79, 91, 139;
       the tree is only read *)
  extractedDirExists : bool;              (* line 25 *)
  backupDirExists : bool;                 (* line 44 *)
  mkdirBackup : result unit;              (* line 45 *)
  runRsync : result unit;                 (* line 67 *)
  destDirExists : string -> bool;         (* line 80 *)
  rmDest : string -> result unit;         (* line 81 *)
  mkdirDest : string -> result unit;      (* line 83 *)
  runCpDir : string -> result unit;       (* line 84 *)
  runCpFile : string -> result unit;      (* line 92 *)
  runInstall : result (string * string);  (* line 107: stdout, stderr *)
  prismaSchemaExists : bool;              (* line 127 *)
  runGenerate : result unit;              (* line 129 *)
  prismaDirExists : bool;                 (* line 143 *)
  mkdirPrisma : result unit;              (* line 144 *)
  runCpDb : result unit;                  (* line 146 *)
  writeRestart : result unit              (* line 159 *)
}.

(** Computations of this handler. *)
Definition Run (A : Type) : Type := M DeployStatus response A.

Definition projectRoot (env : Env) : string := cwd env.
Definition extractedDir (env : Env) : string :=
  join (projectRoot env) "extracted-system".
Definition backupDir (env : Env) : string := join (projectRoot env) ".backup".
Definition restartFile (env : Env) : string := join (projectRoot env) ".restart".

(** ** Step 1, lines 38-46 *)

Definition backupStep (env : Env) : Run unit :=
  assign (set_message "جاري عمل نسخة احتياطية...") ;;
  assign (set_step "backup") ;;
  assign (set_progress 10) ;;
  if negb (backupDirExists env)
  then perform (Mkdir (backupDir env)) (mkdirBackup env)
  else ret tt.

(** ** Step 2, lines 48-98 *)

Definition excludeList : list string :=
  ["node_modules"; ".next"; ".git"; "dev.log"; "server.log";
   "extracted-system"; ".backup"].

Definition rsync_command (env : Env) : string :=
  let excludeArgs :=
    String.concat " " (map (fun item => "--exclude=" ++ quoted item) excludeList) in
  "rsync -av " ++ excludeArgs ++ " " ++ quoted (extractedDir env ++ "/")
  ++ " " ++ quoted (projectRoot env ++ "/") ++ " 2>&1".

Definition dirsToCopy : list string :=
  ["src"; "public"; "prisma"; "db"; "mini-services"; "examples"].

Definition filesToCopy : list string :=
  ["package.json"; "tsconfig.json"; "tailwind.config.ts"; "next.config.ts";
   "Caddyfile"; "eslint.config.mjs"; "postcss.config.mjs"].

(** Lines 76-94: the fallback when [rsync] fails. *)
Definition fallbackCopy (env : Env) : Run unit :=
  for_of dirsToCopy (fun dir =>
    let srcDir := join (extractedDir env) dir in
    let destDir := join (projectRoot env) dir in
    if inExtracted env srcDir then
      (if destDirExists env destDir
       then perform (Rm destDir) (rmDest env destDir)
       else ret tt) ;;
      perform (Mkdir destDir) (mkdirDest env destDir) ;;
      perform (Exec ("cp -r " ++ quoted (srcDir ++ "/.") ++ " "
                     ++ quoted (destDir ++ "/")))
        (runCpDir env srcDir)
    else ret tt) ;;
  for_of filesToCopy (fun file =>
    let srcFile := join (extractedDir env) file in
    let destFile := join (projectRoot env) file in
    if inExtracted env srcFile then
      perform (Exec ("cp " ++ quoted srcFile ++ " " ++ quoted destFile))
        (runCpFile env srcFile)
    else ret tt).

Definition copyStep (env : Env) : Run unit :=
  assign (set_message "جاري نسخ ملفات النظام...") ;;
  assign (set_step "copy") ;;
  assign (set_progress 20) ;;
  try_catch
    (perform (Exec (rsync_command env)) (runRsync env))
    (fun rsyncError => fallbackCopy env) ;;
  assign (set_progress 50) ;;
  assign (set_message "تم نسخ الملفات بنجاح").

(** ** Step 3, lines 100-118 *)

Definition installStep (env : Env) : Run unit :=
  assign (set_status Installing) ;;
  assign (set_message "جاري تثبيت الاعتمادات...") ;;
  assign (set_step "install") ;;
  assign (set_progress 60) ;;
  try_catch
    (perform (Exec "bun install") (runInstall env) ;;
     assign (set_message "تم تثبيت الاعتمادات") ;;
     assign (set_progress 80))
    (fun installError =>
       assign (set_message "تحذير: قد تحتاج لتشغيل bun install يدوياً") ;;
       assign (set_progress 80)).

(** ** Step 4, lines 120-134 *)

Definition prismaStep (env : Env) : Run unit :=
  assign (set_status Migrating) ;;
  assign (set_message "جاري تهيئة قاعدة البيانات...") ;;
  assign (set_step "prisma") ;;
  assign (set_progress 85) ;;
  if prismaSchemaExists env then
    try_catch
      (perform (Exec "bun run db:generate") (runGenerate env) ;;
       assign (set_message "تم تهيئة Prisma"))
      (fun prismaError => ret tt)
  else ret tt.

(** ** Step 5, lines 136-151 *)

Definition dataCopyStep (env : Env) : Run unit :=
  let sourceDb := join (extractedDir env) "mushaf_source.db" in
  let destDb := join (projectRoot env) "prisma/dev.db" in
  if inExtracted env sourceDb then
    try_catch
      (let prismaDir := join (projectRoot env) "prisma" in
       (if negb (prismaDirExists env)
        then perform (Mkdir prismaDir) (mkdirPrisma env)
        else ret tt) ;;
       perform (Exec ("cp " ++ quoted sourceDb ++ " " ++ quoted destDb))
         (runCpDb env) ;;
       assign (set_message "تم نسخ قاعدة البيانات"))
      (fun dbError => ret tt)
  else ret tt.

(** ** Step 6, lines 153-159 *)

Definition restartStep (env : Env) : Run unit :=
  assign (set_status Success) ;;
  assign (set_message "تم نشر النظام بنجاح! جاري إعادة التشغيل...") ;;
  assign (set_progress 100) ;;
  perform (WriteFile (restartFile env)) (writeRestart env).

(** ** The response, lines 161-172 *)

Definition steps_reported : list report :=
  [ {| report_step := "backup"; report_status := "done";
       report_message := "تم عمل نسخة احتياطية" |};
    {| report_step := "copy"; report_status := "done";
       report_message := "تم نسخ ملفات النظام" |};
    {| report_step := "install"; report_status := "done";
       report_message := "تم تثبيت الاعتمادات" |};
    {| report_step := "prisma"; report_status := "done";
       report_message := "تم تهيئة قاعدة البيانات" |};
    {| report_step := "restart"; report_status := "done";
       report_message := "جاري إعادة التشغيل" |} ].

Definition success_response : response :=
  {| http := 200;
     json := StatusSuccess "تم نشر النظام بنجاح!" 100 steps_reported |}.

(** ** [POST] (lines 19-184) *)

Definition POST (env : Env) : Run response :=
  try_catch
    ((* Check if extracted directory exists *)
     if negb (extractedDirExists env) then
       returning {| http := 400; json := JustError err_no_extraction |}
     else
     (* Reset status *)
     assign (fun _ =>
       {| status := Deploying; message := "بدء نشر النظام...";
          progress := 5; error := EmptyString; step := "init" |}) ;;
     backupStep env ;;
     copyStep env ;;
     installStep env ;;
     prismaStep env ;;
     dataCopyStep env ;;
     restartStep env ;;
     returning success_response)
    (fun e =>
       assign (set_status Error) ;;
       assign (set_error (message_or e err_deploy)) ;;
       st <- read ;;
       returning {| http := 500; json := StatusError (error st) |}).

(** One request, run against the status the process holds. *)
Definition handle (env : Env) (s : DeployStatus)
  : option response * world DeployStatus :=
  respond (POST env) {| current := s; log := [] |}.

(** [GET]: the status as a poller sees it. *)
Definition GET (s : DeployStatus) : DeployStatus := s.

(** ** Notions of the specification *)

Definition succeeded (r : option response) : Prop :=
  exists r', r = Some r' /\ http r' = 200.

(** The step that the response calls [name] was attempted and did its
    work. *)
Definition step_succeeded (env : Env) (name : string) : Prop :=
  if String.eqb name "backup" then completes (backupStep env)
  else if String.eqb name "copy" then completes (copyStep env)
  else if String.eqb name "install" then exists out, runInstall env = Resolves out
  else if String.eqb name "prisma" then
    prismaSchemaExists env = true /\ runGenerate env = Resolves tt
  else if String.eqb name "restart" then writeRestart env = Resolves tt
  else False.

(** A list of reports tells the outcome of each step: [done] for the
    steps that succeeded and for no other. *)
Definition reports_outcomes (env : Env) (steps : list report) : Prop :=
  forall r, In r steps ->
    (report_status r = "done" <-> step_succeeded env (report_step r)).

(** ** Sample requests *)

(** A world in which the extracted tree is there when [extracted] holds,
    the essential steps work, and the three optional steps work when
    [optional] holds and fail otherwise. *)
Definition sample (extracted optional : bool) : Env :=
  let outcome {A} (a : A) (what : string) : result A :=
    if optional then Resolves a else Rejects (ErrorObj what) in
  {| cwd := "/app";
     inExtracted := fun _ => true;
     extractedDirExists := extracted;
     backupDirExists := false; mkdirBackup := Resolves tt;
     runRsync := Resolves tt;
     destDirExists := fun _ => true;
     rmDest := fun _ => Resolves tt; mkdirDest := fun _ => Resolves tt;
     runCpDir := fun _ => Resolves tt; runCpFile := fun _ => Resolves tt;
     runInstall :=
       outcome (EmptyString, EmptyString) "Command failed: bun install";
     prismaSchemaExists := true;
     runGenerate := outcome tt "Command failed: bun run db:generate";
     prismaDirExists := true; mkdirPrisma := Resolves tt;
     runCpDb := outcome tt "Command failed: cp";
     writeRestart := Resolves tt |}.

(** Everything works. *)
Definition smooth_deploy : Env := sample true true.

(** Install, Prisma generation and the copy of the database all fail. *)
Definition rough_deploy : Env := sample true false.

(** Nothing was uploaded. *)
Definition early_deploy : Env := sample false true.

(** The status a finished deploy leaves behind. *)
Definition finished : DeployStatus :=
  {| status := Success; message := "تم نشر النظام بنجاح! جاري إعادة التشغيل...";
     progress := 100; error := EmptyString; step := "prisma" |}.

End Deploy.

(* ================================================================== *)
(** * Reasoning about handlers: what holds however a handler ends *)
(* ================================================================== *)

Module Hoare.
Import Handler.
Local Open Scope list_scope.

Section Triples.
Context {S R : Type}.

(** [m], started in a world where [P] holds, leaves a world where [Q]
    holds, however it ends: normally, by [return] or by throwing. *)
Definition triple {A} (P : world S -> Prop) (m : M S R A)
    (Q : world S -> Prop) : Prop :=
  forall w, P w -> Q (snd (m w)).




(** Every effect attempted so far satisfies [P]. *)
Definition effects_all (P : effect -> Prop) (w : world S) : Prop :=
  Forall P (performed (log w)).

End Triples.
End Hoare.

(* ================================================================== *)
(** * Notions for the deploy route *)
(* ================================================================== *)

Module DeployNotions.
Import Handler Hoare Deploy.



(** [m] throws whatever the status it starts from. *)
Definition fails {A} (m : Run A) : Prop :=
  forall w, exists e w', m w = (Thrown e, w').

(** What a deploy may remove: nothing, unless [rsync] failed; then a
    directory of the project that is on the list of the fallback, exists,
    and is about to be replaced by the one of the same name in the
    extracted tree. *)
Definition removal_allowed (env : Env) (e : effect) : Prop :=
  match e with
  | Rm p =>
      (exists x, runRsync env = Rejects x)
      /\ exists dir,
           In dir dirsToCopy
           /\ inExtracted env (join (extractedDir env) dir) = true
           /\ destDirExists env (join (projectRoot env) dir) = true
           /\ p = join (projectRoot env) dir
  | _ => True
  end.

(** An effect of the steps before Install: neither the sentinel nor the
    installer. *)
Definition before_install (env : Env) (e : effect) : Prop :=
  e <> WriteFile (restartFile env) /\ e <> Exec "bun install".

(** [rsync] is missing and the project directory cannot be written. *)
Definition stuck_deploy : Env :=
  {| cwd := "/app";
     inExtracted := fun _ => true;
     extractedDirExists := true;
     backupDirExists := true; mkdirBackup := Resolves tt;
     runRsync := Rejects (ErrorObj "Command failed: rsync");
     destDirExists := fun _ => false;
     rmDest := fun _ => Resolves tt;
     mkdirDest := fun _ => Rejects (ErrorObj "EACCES: permission denied");
     runCpDir := fun _ => Resolves tt; runCpFile := fun _ => Resolves tt;
     runInstall := Resolves (EmptyString, EmptyString);
     prismaSchemaExists := true;
     runGenerate := Resolves tt;
     prismaDirExists := true; mkdirPrisma := Resolves tt;
     runCpDb := Resolves tt;
     writeRestart := Resolves tt |}.


End DeployNotions.

(* ================================================================== *)
(** * Notions for the upload route *)
(* ================================================================== *)

Module UploadNotions.
Import Handler Classify Upload.

(** A path that [find] prints on a line of its own: no line feed in it. *)
Fixpoint no_line_feed (s : string) : bool :=
  match s with
  | EmptyString => true
  | String c s' => negb (Ascii.eqb c Js.LF) && no_line_feed s'
  end.

(** Some character of the string is not white space. *)
Fixpoint has_ink (s : string) : bool :=
  match s with
  | EmptyString => false
  | String c s' => negb (Js.is_space c) || has_ink s'
  end.

(** The path [find] prints for what lies at [p] below the extraction
    directory. *)
Definition below (env : Env) (p : string) : string :=
  extractedDir env ++ "/" ++ p.

(** A name below the extraction directory: not empty, on one line. *)
Definition plain_name (p : string) : Prop :=
  p <> EmptyString /\ no_line_feed p = true.

Definition directory_entry (p : string) : entry :=
  {| path := p; size := 0; type := Directory |}.

Definition file_entry (env : Env) (p : string) : entry :=
  {| path := p;
     size := match statSize env (below env p) with
             | Resolves n => n
             | Rejects _ => 0
             end;
     type := File |}.


(** A tarball of two files in two directories, one of which cannot be
    inspected. *)
Definition listed_upload : Env :=
  {| cwd := "/app"; tmpdir := "/tmp"; now := 4242;
     formData := Resolves (Some {| name := "site.tgz"; bytes := 2048 |});
     mkdirTemp := Resolves tt; arrayBuffer := Resolves tt;
     writeTemp := Resolves tt; extractedDirExists := false;
     rmExtracted := Resolves tt; mkdirExtracted := Resolves tt;
     runExtract := Resolves ("src/" ++ newline ++ "src/a.ts" ++ newline,
                             EmptyString);
     treeFiles := ["/app/extracted-system/src/a.ts";
                   "/app/extracted-system/pub/b c.png"];
     treeDirs := ["/app/extracted-system"; "/app/extracted-system/src";
                  "/app/extracted-system/pub"];
     runFindFiles := None; runFindDirs := None; runCount := None;
     statSize := fun p =>
       if String.eqb p "/app/extracted-system/src/a.ts" then Resolves 7
       else Rejects (ErrorObj "ENOENT");
     rmTemp := Resolves tt |}.

End UploadNotions.

(* ================================================================== *)
(** * The page: [Home] of [deploy-route.ts], lines 189-782 *)
(* ================================================================== *)

Module Page.
Import Handler Classify.
Local Open Scope handler_scope.

(** Line 213. *)
Definition SUPPORTED_FORMATS : list string :=
  [".tar"; ".tar.gz"; ".tgz"; ".zip"; ".rar"].

(** [isSupportedFile], lines 281-284. *)
Definition isSupportedFile (filename : string) : bool :=
  let lowerName := Js.toLowerCase filename in
  existsb (fun format => Js.endsWith lowerName format) SUPPORTED_FORMATS.

(** [getFileType], lines 287-295. *)
Definition getFileType (filename : string) : string :=
  let lowerName := Js.toLowerCase filename in
  if Js.endsWith lowerName ".tar.gz" || Js.endsWith lowerName ".tgz"
  then "tar.gz"
  else if Js.endsWith lowerName ".tar" then "tar"
  else if Js.endsWith lowerName ".zip" then "zip"
  else if Js.endsWith lowerName ".rar" then "rar"
  else "unknown".

(** ** The two pieces of state (lines 216-246) *)

Inductive phase : Type := Idle | Uploading | Extracting | Success | Error.

(** A message of the upload card: a fixed text, or the sentence of line
    314 with the size of the file put in (shown in MB). *)
Inductive note : Type :=
| Plain (s : string)
| UploadingNote (size : nat).

(** [interface UploadStatus]; an optional field that is left out is
    [None]. *)
Record UploadStatus : Type := {
  status : phase;
  message : note;
  progress : nat;
  files : option (list Upload.entry);
  totalFiles : option Z;
  error : option string;
  fileType : option string
}.

(** [interface DeployStatus]; the phases are those of the deploy
    route. *)
Record DeployStatus : Type := {
  deploy_status : Deploy.phase;
  deploy_message : string;
  deploy_progress : nat;
  deploy_error : option string
}.

(** What the component holds: the two states, the value of the file
    input when the ref is attached, and the addresses [fetch] was called
    with, the latest first. *)
Record Home : Type := {
  uploadStatus : UploadStatus;
  deployStatus : DeployStatus;
  fileInput : option string;
  fetched : list string
}.

Definition setUploadStatus (v : UploadStatus) (h : Home) : Home :=
  {| uploadStatus := v; deployStatus := deployStatus h;
     fileInput := fileInput h; fetched := fetched h |}.

Definition setDeployStatus (v : DeployStatus) (h : Home) : Home :=
  {| uploadStatus := uploadStatus h; deployStatus := v;
     fileInput := fileInput h; fetched := fetched h |}.

Definition calling (url : string) (h : Home) : Home :=
  {| uploadStatus := uploadStatus h; deployStatus := deployStatus h;
     fileInput := fileInput h; fetched := url :: fetched h |}.

(** [{ status: 'idle', message: '', progress: 0 }] *)
Definition idle_upload : UploadStatus :=
  {| status := Idle; message := Plain EmptyString; progress := 0;
     files := None; totalFiles := None; error := None; fileType := None |}.

Definition idle_deploy : DeployStatus :=
  {| deploy_status := Deploy.Idle; deploy_message := EmptyString;
     deploy_progress := 0; deploy_error := None |}.

(** The component when it is mounted. *)
Definition mounted : Home :=
  {| uploadStatus := idle_upload; deployStatus := idle_deploy;
     fileInput := Some EmptyString; fetched := [] |}.

(** ** What [fetch] brings back

    A response has its status code and a body: [json()] either gives
    the value of the body, one of the bodies [B] of the route, or
    rejects with [why], and then [text()] gives [raw]. *)

Inductive content (B : Type) : Type :=
| Json (value : B)
| NotJson (why : exn) (raw : result string).
Arguments Json {B} value.
Arguments NotJson {B} why raw.

Record Response (B : Type) : Type := { code : nat; body : content B }.
Arguments code {B} r.
Arguments body {B} r.

(** [response.ok] *)
Definition ok {B} (r : Response B) : bool :=
  (200 <=? code r) && (code r <=? 299).

(** [response.json()] *)
Definition json {B} (r : Response B) : result B :=
  match body r with
  | Json v => Resolves v
  | NotJson why _ => Rejects why
  end.

(** [response.text()] once [json()] has failed. *)
Definition text {B} (r : Response B) : result string :=
  match body r with
  | Json _ => Rejects (ErrorObj "Body is unusable")
  | NotJson _ raw => raw
  end.

(** The fields the page reads of the body of the upload route. *)
Definition upload_error (b : Upload.body) : option string :=
  match b with
  | Upload.JustError e | Upload.StatusError e => Some e
  | Upload.StatusSuccess _ _ _ _ => None
  end.

Definition upload_files (b : Upload.body) : option (list Upload.entry) :=
  match b with
  | Upload.StatusSuccess fl _ _ _ => Some fl
  | _ => None
  end.

Definition upload_totalFiles (b : Upload.body) : option Z :=
  match b with
  | Upload.StatusSuccess _ tf _ _ => Some tf
  | _ => None
  end.

Definition upload_fileType (b : Upload.body) : option string :=
  match b with
  | Upload.StatusSuccess _ _ ft _ => Some (FileType_string ft)
  | _ => None
  end.

(** And of the body of the deploy route. *)
Definition result_error (b : Deploy.body) : option string :=
  match b with
  | Deploy.JustError e | Deploy.StatusError e => Some e
  | Deploy.StatusSuccess _ _ _ => None
  end.

Definition result_message (b : Deploy.body) : option string :=
  match b with
  | Deploy.StatusSuccess m _ _ => Some m
  | _ => None
  end.

(** ** Texts *)

Definition err_format : string :=
  "الملف يجب أن يكون بصيغة مدعومة: " ++ String.concat ", " SUPPORTED_FORMATS.
Definition err_unreadable : string := "فشل في قراءة الاستجابة من الخادم".
Definition err_server (status : nat) : string :=
  "خطأ من الخادم: " ++ Js.decimal status.
Definition err_unexpected : string := "حدث خطأ غير متوقع".
Definition err_deploy : string := "حدث خطأ أثناء النشر".
Definition msg_extracted : string := "تم استخراج الملف بنجاح!".
Definition msg_deploying : string := "جاري نشر النظام...".
Definition msg_deployed : string := "تم نشر النظام بنجاح!".

Definition upload_url : string := "/api/upload-system".
Definition deploy_url : string := "/api/upload-system/deploy".

(** ** The handlers

    A handler is a computation on the component; it gives no value back,
    so leaving it early is [returning tt]. *)

Definition Act (A : Type) : Type := M Home unit A.

(** [throw new Error(message)] *)
Definition throw {A} (message : string) : Act A :=
  await (Rejects (ErrorObj message)).

(** [await fetch(url, ...)], answered by [net]. *)
Definition fetch {B} (url : string) (net : result (Response B))
  : Act (Response B) :=
  assign (calling url) ;; await net.

(** [handleFileUpload], lines 296-367. *)
Definition handleFileUpload (net : result (Response Upload.body))
    (file : Upload.UploadedFile) : Act unit :=
  (* Check if file is supported *)
  if negb (isSupportedFile (Upload.name file)) then
    assign (setUploadStatus
              {| status := Error; message := Plain err_format; progress := 0;
                 files := None; totalFiles := None; error := None;
                 fileType := None |}) ;;
    returning tt
  else
  let fileType := getFileType (Upload.name file) in
  (* Reset statuses *)
  assign (setDeployStatus idle_deploy) ;;
  assign (setUploadStatus
            {| status := Uploading;
               message := UploadingNote (Upload.bytes file); progress := 5;
               files := None; totalFiles := None; error := None;
               fileType := Some fileType |}) ;;
  try_catch
    (response <- fetch upload_url net ;;
     result <-
       try_catch (await (json response))
         (fun jsonError => await (text response) ;; throw err_unreadable) ;;
     if negb (ok response) then
       throw (Js.string_or (upload_error result) (err_server (code response)))
     else
     assign (setUploadStatus
               {| status := Success; message := Plain msg_extracted;
                  progress := 100; files := upload_files result;
                  totalFiles := upload_totalFiles result; error := None;
                  fileType := upload_fileType result |}))
    (fun error =>
       assign (setUploadStatus
                 {| status := Error;
                    message := Plain (message_or error err_unexpected);
                    progress := 0; files := None; totalFiles := None;
                    error := Some (message_or error err_unexpected);
                    fileType := None |})).

(** [handleDeploy], lines 369-399. *)
Definition handleDeploy (net : result (Response Deploy.body)) : Act unit :=
  assign (setDeployStatus
            {| deploy_status := Deploy.Deploying;
               deploy_message := msg_deploying; deploy_progress := 10;
               deploy_error := None |}) ;;
  try_catch
    (response <- fetch deploy_url net ;;
     result <- await (json response) ;;
     if negb (ok response) then
       throw (Js.string_or (result_error result) err_deploy)
     else
     assign (setDeployStatus
               {| deploy_status := Deploy.Success;
                  deploy_message :=
                    Js.string_or (result_message result) msg_deployed;
                  deploy_progress := 100; deploy_error := None |}))
    (fun error =>
       assign (setDeployStatus
                 {| deploy_status := Deploy.Error;
                    deploy_message := message_or error err_deploy;
                    deploy_progress := 0; deploy_error := None |})).

(** [resetUpload], lines 409-423. *)
Definition resetUpload : Act unit :=
  assign (setUploadStatus idle_upload) ;;
  assign (setDeployStatus idle_deploy) ;;
  assign (fun h =>
            {| uploadStatus := uploadStatus h; deployStatus := deployStatus h;
               fileInput := match fileInput h with
                            | Some _ => Some EmptyString
                            | None => None
                            end;
               fetched := fetched h |}).

(** Lines 425-427. *)
Definition isDeploying (h : Home) : bool :=
  match deploy_status (deployStatus h) with
  | Deploy.Deploying | Deploy.Installing | Deploy.Migrating => true
  | _ => false
  end.


(** The component after a handler has run on it. *)
Definition after (act : Act unit) (h : Home) : Home :=
  current (snd (act {| current := h; log := [] |})).

(** ** The page in front of the routes

    [fetch] resolves with what the route answered. *)

Definition upload_answer (r : Upload.response)
  : result (Response Upload.body) :=
  Resolves {| code := Upload.http r; body := Json (Upload.json r) |}.

Definition deploy_answer (r : Deploy.response)
  : result (Response Deploy.body) :=
  Resolves {| code := Deploy.http r; body := Json (Deploy.json r) |}.

(** ** Sample clicks *)

Definition notes_txt : Upload.UploadedFile :=
  {| Upload.name := "notes.txt"; Upload.bytes := 2048 |}.

Definition system_tgz : Upload.UploadedFile :=
  {| Upload.name := "system.tar.gz"; Upload.bytes := 2048 |}.

End Page.

(* ================================================================== *)
(** * Handlers that run at the same time *)
(* ================================================================== *)

(** A handler is an [async] function: it runs alone up to its next
    [await], is suspended there, and is resumed later; while it is
    suspended the handlers of other requests run, on the same status. A
    [thread] is a handler with its points of suspension kept. *)

Module Threads.
Import Handler.
Local Open Scope list_scope.

Section Threads.
Context {S R : Type}.

Inductive thread (A : Type) : Type :=
| Ended (o : outcome R A)
| Assigning (f : S -> S) (k : thread A)
| Reading (k : S -> thread A)
| Performing (e : effect) (k : thread A)
| Awaiting (k : thread A).
Arguments Ended {A} o.
Arguments Assigning {A} f k.
Arguments Reading {A} k.
Arguments Performing {A} e k.
Arguments Awaiting {A} k.

Definition ret {A} (a : A) : thread A := Ended (Normal a).

(** [return response] *)
Definition returning {A} (r : R) : thread A := Ended (Returned r).

Fixpoint bind {A B} (m : thread A) (k : A -> thread B) : thread B :=
  match m with
  | Ended (Normal a) => k a
  | Ended (Returned r) => Ended (Returned r)
  | Ended (Thrown e) => Ended (Thrown e)
  | Assigning f m' => Assigning f (bind m' k)
  | Reading g => Reading (fun s => bind (g s) k)
  | Performing e m' => Performing e (bind m' k)
  | Awaiting m' => Awaiting (bind m' k)
  end.

(** [status = ...] or [status.field = ...] *)
Definition assign (f : S -> S) : thread unit := Assigning f (ret tt).

Definition read : thread S := Reading ret.

(** A promise that has settled. *)
Definition settled {A} (r : result A) : thread A :=
  match r with
  | Resolves a => ret a
  | Rejects e => Ended (Thrown e)
  end.

(** [await] of a promise that does not change the world: the handler is
    suspended until the promise settles. *)
Definition await {A} (r : result A) : thread A := Awaiting (settled r).

(** [await] of an effect: it is attempted, and logged, before the
    handler is suspended. *)
Definition perform {A} (e : effect) (r : result A) : thread A :=
  Performing e (await r).

(** [await f(...)] for an [async] function [f] of the program: the
    body of [f] runs, and the caller is suspended once more when it has
    ended. *)
Definition awaited {A} (m : thread A) : thread A :=
  bind m (fun a => Awaiting (ret a)).

(** [try { m } catch (error) { h error }] *)
Fixpoint try_catch {A} (m : thread A) (h : exn -> thread A) : thread A :=
  match m with
  | Ended (Thrown e) => h e
  | Ended o => Ended o
  | Assigning f m' => Assigning f (try_catch m' h)
  | Reading g => Reading (fun s => try_catch (g s) h)
  | Performing e m' => Performing e (try_catch m' h)
  | Awaiting m' => Awaiting (try_catch m' h)
  end.

(** [for (const x of l) { ... list.push(...) }]: what the rounds push,
    in order. *)
Fixpoint gather {A B} (l : list A) (body : A -> thread (list B))
  : thread (list B) :=
  match l with
  | [] => ret []
  | x :: l' =>
      bind (body x) (fun ys =>
      bind (gather l' body) (fun zs => ret (ys ++ zs)))
  end.

(** ** Running

    [advance t w] runs [t] on the world [w] until it is suspended or has
    ended, and gives what is left of it. *)
Fixpoint advance {A} (t : thread A) (w : world S) : thread A * world S :=
  match t with
  | Ended o => (Ended o, w)
  | Assigning f k =>
      let s := f (current w) in
      advance k {| current := s; log := log w ++ [Assigned s] |}
  | Reading g => advance (g (current w)) w
  | Performing e k =>
      advance k {| current := current w; log := log w ++ [Performed e] |}
  | Awaiting k => (k, w)
  end.

(** The handlers in flight, and the world they share. *)
Definition pool (A : Type) : Type := list (thread A) * world S.

Fixpoint put {A} (i : nat) (t : thread A) (l : list (thread A))
  : list (thread A) :=
  match l with
  | [] => []
  | x :: l' =>
      match i with
      | O => t :: l'
      | Datatypes.S i' => x :: put i' t l'
      end
  end.

(** The event loop resumes the handler of request [i]. *)
Definition resume {A} (i : nat) (p : pool A) : pool A :=
  match nth_error (fst p) i with
  | Some t => let (t', w') := advance t (snd p) in (put i t' (fst p), w')
  | None => p
  end.

(** The requests are resumed in the order [schedule]. *)
Definition run {A} (schedule : list nat) (p : pool A) : pool A :=
  fold_left (fun p i => resume i p) schedule p.

(** The response of a handler that has ended. *)
Definition answer (t : thread R) : option R :=
  match t with
  | Ended (Normal r) | Ended (Returned r) => Some r
  | _ => None
  end.

(** [t] run without anything in between: the handler of module
    [Handler] it stands for. *)
Fixpoint alone {A} (t : thread A) : M S R A :=
  fun w =>
    match t with
    | Ended o => (o, w)
    | Assigning f k =>
        let s := f (current w) in
        alone k {| current := s; log := log w ++ [Assigned s] |}
    | Reading g => alone (g (current w)) w
    | Performing e k =>
        alone k {| current := current w; log := log w ++ [Performed e] |}
    | Awaiting k => alone k w
    end.

End Threads.

Arguments thread : clear implicits.
Arguments pool : clear implicits.
Arguments Ended {S R A} o.
Arguments Assigning {S R A} f k.
Arguments Reading {S R A} k.
Arguments Performing {S R A} e k.
Arguments Awaiting {S R A} k.

End Threads.

Declare Scope thread_scope.
Delimit Scope thread_scope with thread.
Notation "x <- m ;; k" := (Threads.bind m (fun x => k))
  (at level 61, m at next level, right associativity) : thread_scope.
Notation "m ;; k" := (Threads.bind m (fun _ => k))
  (at level 61, right associativity) : thread_scope.

(* ================================================================== *)
(** * The upload route among other requests *)
(* ================================================================== *)

(** [extractArchive] and [POST] of [route.ts] once more, as threads:
    the same statements in the same order, with every [await] a point
    where the handler is suspended. *)

Module Overlap.
Import Handler Classify Upload Threads.
Local Open Scope thread_scope.

Definition Handled (A : Type) : Type := thread ExtractionStatus response A.

(** Lines 37-113. *)
Definition extractArchive (env : Env) (filePath targetDir : string)
    (fileType : FileType) : Handled ExtractionResult :=
  try_catch
    (match extract_command filePath targetDir fileType with
     | None =>
         ret {| success := false; items := [];
                failure := Some err_unsupported_type |}
     | Some command =>
         out <- perform (Exec command) (runExtract env) ;;
         let output := fst out ++ snd out in
         let extractedItems := parse_items fileType output in
         ret {| success := true; items := extractedItems; failure := None |}
     end)
    (fun error =>
       ret {| success := false; items := [];
              failure := Some (message_or error err_extraction) |}).

(** Lines 259-277: one [await stat(file)] for each file that is
    listed. *)
Definition file_entries (env : Env) (files : list string)
  : Handled (list entry) :=
  gather (Js.slice0 500 files)
    (fun file =>
       let relativePath := relativePath env file in
       if Js.truthy relativePath then
         try_catch
           (fileStat <- await (statSize env file) ;;
            ret [{| path := relativePath; size := fileStat; type := File |}])
           (fun _ =>
              ret [{| path := relativePath; size := 0; type := File |}])
       else ret []).

(** Lines 115-314. *)
Definition POST (env : Env) : Handled response :=
  try_catch
    ((* Reset status *)
     assign (fun _ => reset_status) ;;
     (* Parse form data *)
     file <- await (formData env) ;;
     match file with
     | None => returning {| http := 400; json := JustError err_no_file |}
     | Some file =>
     (* Detect file type *)
     let fileType := detectFileType (name file) in
     if FileType_eqb fileType Unknown then
       returning {| http := 400; json := JustError err_unsupported_format |}
     else
     assign (set_fileType (FileType_string fileType)) ;;
     assign (set_message (SavingFile (bytes file))) ;;
     assign (set_progress 10) ;;
     (* Create temp directory *)
     perform (Mkdir (tempDir env)) (mkdirTemp env) ;;
     assign (set_message WritingToDisk) ;;
     assign (set_progress 15) ;;
     await (arrayBuffer env) ;;
     perform (WriteFile (tempFilePath env fileType)) (writeTemp env) ;;
     assign (set_message (ExtractingFrom (Js.toUpperCase (FileType_string fileType)))) ;;
     assign (set_progress 25) ;;
     (* Clean up previous extraction *)
     (if extractedDirExists env
      then perform (Rm (extractedDir env)) (rmExtracted env)
      else ret tt) ;;
     perform (Mkdir (extractedDir env)) (mkdirExtracted env) ;;
     (* Extract archive based on type *)
     assign (set_message Unpacking) ;;
     assign (set_progress 35) ;;
     extractionResult <-
       awaited (extractArchive env (tempFilePath env fileType)
                  (extractedDir env) fileType) ;;
     if negb (success extractionResult) then
       assign (set_status Error) ;;
       assign (set_error (Js.string_or (failure extractionResult) err_extraction)) ;;
       st <- read ;;
       returning {| http := 500; json := StatusError (error st) |}
     else if List.length (items extractionResult) =? 0 then
       assign (set_status Error) ;;
       assign (set_error err_empty_archive) ;;
       st <- read ;;
       returning {| http := 500; json := StatusError (error st) |}
     else
     assign (set_progress 55) ;;
     assign (set_message (FoundItems (List.length (items extractionResult)))) ;;
     (* List all extracted files *)
     assign (set_message ListingFiles) ;;
     assign (set_progress 65) ;;
     allFilesOutput <-
       perform (Exec (find_files_command env))
         (stdout_of (runFindFiles env) (head_n (print_lines (treeFiles env)) 1000)) ;;
     let files := nonblank_lines allFilesOutput in
     allDirsOutput <-
       perform (Exec (find_dirs_command env))
         (stdout_of (runFindDirs env) (head_n (print_lines (treeDirs env)) 500)) ;;
     let dirs := nonblank_lines allDirsOutput in
     (* Get total count *)
     countOutput <-
       perform (Exec (count_command env))
         (stdout_of (runCount env) (count_line (treeFiles env))) ;;
     let totalFiles :=
       Js.number_or (Js.parseInt (Js.trim countOutput))
         (Z.of_nat (List.length files)) in
     (* Build file list *)
     listed <- file_entries env files ;;
     let fileList := (directory_entries env dirs ++ listed)%list in
     assign (set_files fileList) ;;
     assign (set_totalFiles totalFiles) ;;
     assign (set_status Success) ;;
     assign (set_message ExtractedFine) ;;
     assign (set_progress 100) ;;
     (* Clean up temp file *)
     try_catch (perform (Rm (tempDir env)) (rmTemp env)) (fun _ => ret tt) ;;
     returning {| http := 200;
                  json := StatusSuccess fileList totalFiles fileType
                            (extractedDir env) |}
     end)
    (fun e =>
       assign (set_status Error) ;;
       assign (set_error (message_or e err_unexpected)) ;;
       st <- read ;;
       returning {| http := 500; json := StatusError (error st) |}).

(** Requests that arrive at a fresh process, none of them started. *)
Definition arriving (envs : list Env) : pool ExtractionStatus response response :=
  (map POST envs, {| current := extractionStatus; log := [] |}).

(** Every status the record went through while [schedule] ran. *)
Definition seen (schedule : list nat) (envs : list Env)
  : list ExtractionStatus :=
  assigned (log (snd (run schedule (arriving envs)))).

(** The schedule that serves the requests in turn: request 0 is
    resumed [n0] times, then request 1 [n1] times, and so on; no request
    is resumed once a later one has started. *)
Fixpoint in_turn (k : nat) (ns : list nat) : list nat :=
  match ns with
  | [] => []
  | n :: ns' => repeat k n ++ in_turn (S k) ns'
  end.

(** ** Two uploads in flight

    Request 0 carries the broken tarball, request 1 the good one. *)

(** Request 0 is resumed six times and then waits for [tar] (it has
    awaited the form, the staging directory, the buffer, the staged file
    and the extraction directory); request 1 is resumed thirteen times,
    from its start to its last statement; and then request 0 is resumed
    twice: [tar] has failed, [extractArchive] gives its result, and the
    failure is recorded. *)
Definition late_failure : list nat :=
  repeat 0 6 ++ repeat 1 13 ++ repeat 0 2.

(** Request 1 is resumed seven times and then waits for [tar] (one time
    more than request 0 above, for the old extraction directory it
    removes); request 0 is resumed eight times, to its response; and
    then request 1 is resumed six times, to its last statement. *)
Definition late_success : list nat :=
  repeat 1 7 ++ repeat 0 8 ++ repeat 1 6.

End Overlap.

(* ================================================================== *)
(** * Facts about the string primitives *)
(* ================================================================== *)

Module JsFacts.
Import Js.

Lemma code_lt_256 (c : ascii) : code c < 256.
Proof. apply nat_ascii_bounded. Qed.

Lemma code_of_nat (n : nat) : n < 256 -> code (ascii_of_nat n) = n.
Proof. apply nat_ascii_embedding. Qed.

Lemma of_code (c : ascii) : ascii_of_nat (code c) = c.
Proof. apply ascii_nat_embedding. Qed.

Lemma code_inj (a b : ascii) : code a = code b -> a = b.
Proof.
  intros E. rewrite <- (of_code a), <- (of_code b). now rewrite E.
Qed.

Lemma length_toLowerCase (s : string) :
  String.length (toLowerCase s) = String.length s.
Proof. induction s as [|c s IH]; simpl; congruence. Qed.

Lemma toLowerCase_app (a b : string) :
  toLowerCase (a ++ b) = toLowerCase a ++ toLowerCase b.
Proof. induction a as [|c a IH]; simpl; congruence. Qed.

(** A lower-cased string that splits comes from a string that splits. *)
Lemma toLowerCase_split (a b s : string) :
  toLowerCase s = a ++ b ->
  exists s1 s2, s = s1 ++ s2 /\ toLowerCase s1 = a /\ toLowerCase s2 = b.
Proof.
  revert s. induction a as [|x a IH]; intros s E.
  - exists EmptyString, s. auto.
  - destruct s as [|c s]; simpl in E; [discriminate|].
    injection E as Ec Es. destruct (IH _ Es) as (s1 & s2 & -> & E1 & E2).
    exists (String c s1), s2. simpl. now rewrite Ec, E1.
Qed.

Lemma length_app (a b : string) :
  String.length (a ++ b) = String.length a + String.length b.
Proof. induction a as [|c a IH]; simpl; congruence. Qed.

Lemma drop_app_length (a b : string) : drop (String.length a) (a ++ b) = b.
Proof. induction a as [|c a IH]; simpl; auto. Qed.

Lemma drop_decompose (k : nat) (s : string) : exists pre, s = pre ++ drop k s.
Proof.
  revert s. induction k as [|k IH]; intros s.
  - now exists EmptyString.
  - destruct s as [|c s]; [now exists EmptyString|].
    destruct (IH s) as (pre & E). exists (String c pre). simpl. now rewrite <- E.
Qed.

(** [endsWith] is the suffix relation. *)
Lemma endsWith_iff (s suf : string) :
  endsWith s suf = true <-> exists pre, s = pre ++ suf.
Proof.
  unfold endsWith. rewrite andb_true_iff, Nat.leb_le, String.eqb_eq. split.
  - intros [_ E]. destruct (drop_decompose (String.length s - String.length suf) s)
      as (pre & Hs). exists pre. now rewrite <- E.
  - intros (pre & ->). rewrite length_app. split; [lia|].
    replace (String.length pre + String.length suf - String.length suf)
      with (String.length pre) by lia.
    apply drop_app_length.
Qed.

(** ** Decimal numbers are read back by [parseInt] *)

Lemma digit_plain (c : ascii) :
  is_digit c = true ->
  is_space c = false /\ Ascii.eqb c "-" = false /\ Ascii.eqb c "+" = false
  /\ Ascii.eqb "x" c = false /\ Ascii.eqb "X" c = false.
Proof.
  destruct c as [[] [] [] [] [] [] [] []]; vm_compute; intuition congruence.
Qed.

Lemma all_digits_uint (d : Decimal.uint) : all_digits (DecimalString.NilEmpty.string_of_uint d) = true.
Proof. induction d; simpl; auto. Qed.


Lemma parse_digits_some (d : Decimal.uint) (a : nat) :
  parse_digits 10 (DecimalString.NilEmpty.string_of_uint d) (Some a) = Some (Nat.of_uint_acc d a).
Proof.
  revert a. induction d; intros a; [reflexivity | ..];
    cbn [DecimalString.NilEmpty.string_of_uint parse_digits Nat.of_uint_acc];
    rewrite Nat.tail_mul_spec;
    match goal with
    | |- context [digit_value 10 ?c] =>
        let v := eval vm_compute in (digit_value 10 c) in
        change (digit_value 10 c) with v
    end;
    cbv beta iota; rewrite IHd; do 2 f_equal; lia.
Qed.

Lemma parse_digits_none (d : Decimal.uint) :
  d <> Decimal.Nil ->
  parse_digits 10 (DecimalString.NilEmpty.string_of_uint d) None = Some (Nat.of_uint d).
Proof.
  unfold Nat.of_uint.
  destruct d; intros Hd; [congruence | ..];
    cbn [DecimalString.NilEmpty.string_of_uint parse_digits Nat.of_uint_acc];
    match goal with
    | |- context [digit_value 10 ?c] =>
        let v := eval vm_compute in (digit_value 10 c) in
        change (digit_value 10 c) with v
    end;
    cbv beta iota; rewrite parse_digits_some; reflexivity.
Qed.

Lemma all_digits_decimal (n : nat) : all_digits (decimal n) = true.
Proof.
  unfold decimal, DecimalString.NilZero.string_of_uint.
  destruct (Nat.to_uint n); try reflexivity; apply all_digits_uint.
Qed.

Lemma decimal_nonempty (n : nat) : decimal n <> EmptyString.
Proof.
  unfold decimal, DecimalString.NilZero.string_of_uint.
  destruct (Nat.to_uint n); simpl; congruence.
Qed.

Lemma parse_digits_decimal (n : nat) :
  parse_digits 10 (decimal n) None = Some n.
Proof.
  unfold decimal, DecimalString.NilZero.string_of_uint.
  rewrite <- (DecimalNat.Unsigned.of_to n) at 2.
  destruct (Nat.to_uint n) eqn:E; [reflexivity | ..]; rewrite <- E;
    apply parse_digits_none; rewrite E; discriminate.
Qed.

Lemma trimStart_digits (s : string) : all_digits s = true -> trimStart s = s.
Proof.
  destruct s as [|c s]; [reflexivity|]. simpl. intros H.
  apply andb_true_iff in H as [H _]. now rewrite (proj1 (digit_plain c H)).
Qed.

Lemma trimEnd_digits_newline (s : string) :
  all_digits s = true -> trimEnd (s ++ String LF EmptyString) = s.
Proof.
  induction s as [|c s IH]; [reflexivity|]. simpl. intros H.
  apply andb_true_iff in H as [Hc Hs]. rewrite (IH Hs).
  destruct s; [|reflexivity]. now rewrite (proj1 (digit_plain c Hc)).
Qed.

Lemma trim_digits_newline (s : string) :
  all_digits s = true -> trim (s ++ String LF EmptyString) = s.
Proof.
  intros H. unfold trim. destruct s as [|c s]; [reflexivity|].
  change (String c s ++ String LF EmptyString)
    with (String c (s ++ String LF EmptyString)).
  cbn [trimStart]. simpl in H. apply andb_true_iff in H as [Hc Hs].
  rewrite (proj1 (digit_plain c Hc)).
  change (String c (s ++ String LF EmptyString))
    with (String c s ++ String LF EmptyString).
  apply trimEnd_digits_newline. simpl. now rewrite Hc.
Qed.

Lemma parseInt_digits (s : string) :
  all_digits s = true -> s <> EmptyString ->
  parseInt s = match parse_digits 10 s None with Some n => Some (Z.of_nat n) | None => None end.
Proof.
  intros H Hne. unfold parseInt. rewrite trimStart_digits by assumption.
  destruct s as [|c s]; [congruence|].
  simpl in H. apply andb_true_iff in H as [Hc Hs].
  destruct (digit_plain c Hc) as (_ & E1 & E2 & _).
  rewrite E1, E2.
  assert (Hx : startsWith (String c s) "0x" || startsWith (String c s) "0X" = false).
  { destruct s as [|c2 s]; cbn [startsWith]; [now rewrite !andb_false_r|].
    simpl in Hs. apply andb_true_iff in Hs as [Hc2 _].
    destruct (digit_plain c2 Hc2) as (_ & _ & _ & E3 & E4). rewrite E3, E4.
    now rewrite !andb_false_l, !andb_false_r. }
  rewrite Hx. reflexivity.
Qed.

Lemma parseInt_count (n : nat) :
  parseInt (trim (decimal n ++ String LF EmptyString)) = Some (Z.of_nat n).
Proof.
  rewrite trim_digits_newline by apply all_digits_decimal.
  rewrite parseInt_digits by (apply all_digits_decimal || apply decimal_nonempty).
  now rewrite parse_digits_decimal.
Qed.

End JsFacts.

(* ================================================================== *)
(** * Classification *)
(* ================================================================== *)

Module ClassifyFacts.
Import Js JsFacts Classify.

Lemma lower_char_agrees (c x : ascii) :
  is_upper x = false -> (lower_char c = x <-> agrees c x).
Proof.
  intros Hx. unfold lower_char, agrees. split.
  - destruct (is_upper c) eqn:Hc; intros <-; [right | now left].
    unfold is_upper in Hc. apply andb_true_iff in Hc as [H1 H2].
    apply Nat.leb_le in H1, H2. pose proof (code_lt_256 c).
    unfold is_lower. rewrite code_of_nat by lia. split; [|reflexivity].
    apply andb_true_iff. split; apply Nat.leb_le; lia.
  - intros [-> | [Hl E]].
    + now rewrite Hx.
    + unfold is_lower in Hl. apply andb_true_iff in Hl as [H1 H2].
      apply Nat.leb_le in H1, H2.
      assert (Hc : is_upper c = true).
      { unfold is_upper. apply andb_true_iff. split; apply Nat.leb_le; lia. }
      rewrite Hc, E. apply of_code.
Qed.

Lemma toLowerCase_agrees (t p : string) :
  no_capital p = true -> (toLowerCase t = p <-> agrees_all t p).
Proof.
  revert t. induction p as [|x p IH]; intros t Hp.
  - split.
    + destruct t; simpl; [constructor | discriminate].
    + inversion 1. reflexivity.
  - simpl in Hp. apply andb_true_iff in Hp as [Hx Hp].
    apply negb_true_iff in Hx. split.
    + destruct t as [|c t]; simpl; [discriminate|]. intros E. injection E as Ec Et.
      constructor; [now apply lower_char_agrees | now apply IH].
    + inversion 1; subst. simpl. f_equal;
        [now apply lower_char_agrees | now apply IH].
Qed.

(** The test of [detectFileType] decides the case-insensitive suffix. *)
Lemma endsWith_lower_ci (s p : string) :
  no_capital p = true ->
  (endsWith (toLowerCase s) p = true <-> ends_ci s p).
Proof.
  intros Hp. rewrite endsWith_iff. unfold ends_ci. split.
  - intros (pre & E). destruct (toLowerCase_split _ _ _ E) as (s1 & s2 & -> & _ & E2).
    exists s1, s2. split; [reflexivity|]. now apply toLowerCase_agrees.
  - intros (pre & tl & -> & A). exists (toLowerCase pre).
    rewrite toLowerCase_app. f_equal. now apply toLowerCase_agrees.
Qed.

Example classify_samples :
  map detectFileType
    ["system.tar"; "system.tar.gz"; "SYSTEM.TGZ"; "a.Zip"; "a.rar";
     "a.tar.gz.txt"; "tar"; "archive.gz"]
  = [Tar; TarGz; TarGz; Zip; Rar; Unknown; Unknown; Unknown].
Proof. reflexivity. Qed.

(** C2. [detectFileType] is the ordered, case-insensitive suffix match of
    the specification: for every file name it gives the kind [k] exactly
    when [k] is the first kind, in the order TarGz ([.tar.gz] or [.tgz]),
    Tar, Zip, Rar, whose suffix the name ends with up to case, and Unknown
    when none does. In particular a name ending in [.tar.gz] is never
    classified as Tar. *)
Theorem detectFileType_ordered_suffix_match (filename : string) :
  (forall k, detectFileType filename = k <-> Classified filename k)
  /\ (ends_ci filename ".tar.gz" -> detectFileType filename <> Tar).
Proof.
  assert (T1 := endsWith_lower_ci filename ".tar.gz" eq_refl).
  assert (T2 := endsWith_lower_ci filename ".tgz" eq_refl).
  assert (T3 := endsWith_lower_ci filename ".tar" eq_refl).
  assert (T4 := endsWith_lower_ci filename ".zip" eq_refl).
  assert (T5 := endsWith_lower_ci filename ".rar" eq_refl).
  unfold detectFileType.
  destruct (endsWith (toLowerCase filename) ".tar.gz") eqn:E1;
  destruct (endsWith (toLowerCase filename) ".tgz") eqn:E2;
  destruct (endsWith (toLowerCase filename) ".tar") eqn:E3;
  destruct (endsWith (toLowerCase filename) ".zip") eqn:E4;
  destruct (endsWith (toLowerCase filename) ".rar") eqn:E5;
  cbn [orb];
  (split; [intros k; destruct k; unfold Classified, targz_suffix | ]);
  intuition (discriminate || congruence).
Qed.

End ClassifyFacts.

(* ================================================================== *)
(** * Facts about handlers *)
(* ================================================================== *)

Module HandlerFacts.
Import Handler.

Section Facts.
Context {S R : Type}.
Implicit Types w : world S.

Lemma bind_normal {A B} (m : M S R A) (k : A -> M S R B) w a w' :
  m w = (Normal a, w') -> bind m k w = k a w'.
Proof. unfold bind. now intros ->. Qed.

Lemma bind_thrown {A B} (m : M S R A) (k : A -> M S R B) w e w' :
  m w = (Thrown e, w') -> bind m k w = (Thrown e, w').
Proof. unfold bind. now intros ->. Qed.

(** *** Computations that ignore the status *)

Lemma oblivious_ret {A} (a : A) : oblivious (S:=S) (R:=R) (ret a).
Proof. intros w1 w2. reflexivity. Qed.

Lemma oblivious_assign (f : S -> S) : oblivious (R:=R) (assign f).
Proof. intros w1 w2. reflexivity. Qed.

Lemma oblivious_await {A} (r : result A) : oblivious (S:=S) (R:=R) (await r).
Proof. intros w1 w2. unfold await. now destruct r. Qed.

Lemma oblivious_perform {A} (e : effect) (r : result A) :
  oblivious (S:=S) (R:=R) (perform e r).
Proof. intros w1 w2. unfold perform, await. now destruct r. Qed.

Lemma oblivious_returning {A} (r : R) : oblivious (S:=S) (returning (A:=A) r).
Proof. intros w1 w2. reflexivity. Qed.

Lemma oblivious_bind {A B} (m : M S R A) (k : A -> M S R B) :
  oblivious m -> (forall a, oblivious (k a)) -> oblivious (bind m k).
Proof.
  intros Hm Hk w1 w2. unfold bind. specialize (Hm w1 w2).
  destruct (m w1) as [[a1|r1|e1] w1'], (m w2) as [[a2|r2|e2] w2'];
    cbn [fst] in *; try congruence.
  injection Hm as <-. apply Hk.
Qed.

Lemma oblivious_try_catch {A} (m : M S R A) (h : exn -> M S R A) :
  oblivious m -> (forall e, oblivious (h e)) -> oblivious (try_catch m h).
Proof.
  intros Hm Hh w1 w2. unfold try_catch. specialize (Hm w1 w2).
  destruct (m w1) as [[a1|r1|e1] w1'], (m w2) as [[a2|r2|e2] w2'];
    cbn [fst] in *; try congruence.
  injection Hm as <-. apply Hh.
Qed.

Lemma oblivious_if {A} (c : bool) (m1 m2 : M S R A) :
  oblivious m1 -> oblivious m2 -> oblivious (if c then m1 else m2).
Proof. now destruct c. Qed.

Lemma oblivious_for_of {A} (l : list A) (body : A -> M S R unit) :
  (forall x, oblivious (body x)) -> oblivious (for_of l body).
Proof.
  intros Hb. induction l as [|x l IH]; cbn [for_of].
  - apply oblivious_ret.
  - apply oblivious_bind; [apply Hb | intros _; apply IH].
Qed.

(** One normal run of an oblivious computation shows that it completes. *)
Lemma oblivious_completes {A} (m : M S R A) w a w' :
  oblivious m -> m w = (Normal a, w') -> completes m.
Proof.
  intros Hm E w2. specialize (Hm w2 w). rewrite E in Hm. cbn [fst] in Hm.
  destruct (m w2) as [o w2']. cbn [fst] in Hm. subst o. now exists a, w2'.
Qed.

(** *** Computations without [return] *)

Lemma never_returns_ret {A} (a : A) : never_returns (S:=S) (R:=R) (ret a).
Proof. intros w r w'. discriminate. Qed.

Lemma never_returns_assign (f : S -> S) : never_returns (R:=R) (assign f).
Proof. intros w r w'. discriminate. Qed.

Lemma never_returns_await {A} (x : result A) : never_returns (S:=S) (R:=R) (await x).
Proof. intros w r w'. unfold await. destruct x; discriminate. Qed.

Lemma never_returns_perform {A} (e : effect) (x : result A) :
  never_returns (S:=S) (R:=R) (perform e x).
Proof. intros w r w'. unfold perform, await. destruct x; discriminate. Qed.

Lemma never_returns_bind {A B} (m : M S R A) (k : A -> M S R B) :
  never_returns m -> (forall a, never_returns (k a)) -> never_returns (bind m k).
Proof.
  intros Hm Hk w r w'. unfold bind. specialize (Hm w).
  destruct (m w) as [[a1|r1|e1] w1].
  - apply Hk.
  - exfalso. now apply (Hm r1 w1).
  - discriminate.
Qed.

Lemma never_returns_try_catch {A} (m : M S R A) (h : exn -> M S R A) :
  never_returns m -> (forall e, never_returns (h e)) -> never_returns (try_catch m h).
Proof.
  intros Hm Hh w r w'. unfold try_catch. specialize (Hm w).
  destruct (m w) as [[a1|r1|e1] w1].
  - discriminate.
  - exfalso. now apply (Hm r1 w1).
  - apply Hh.
Qed.

Lemma never_returns_if {A} (c : bool) (m1 m2 : M S R A) :
  never_returns m1 -> never_returns m2 -> never_returns (if c then m1 else m2).
Proof. now destruct c. Qed.

Lemma never_returns_for_of {A} (l : list A) (body : A -> M S R unit) :
  (forall x, never_returns (body x)) -> never_returns (for_of l body).
Proof.
  intros Hb. induction l as [|x l IH]; cbn [for_of].
  - apply never_returns_ret.
  - apply never_returns_bind; [apply Hb | intros _; apply IH].
Qed.

End Facts.

Create HintDb handler discriminated.
#[export] Hint Resolve oblivious_ret oblivious_assign oblivious_await
  oblivious_perform oblivious_returning oblivious_bind oblivious_try_catch
  oblivious_if oblivious_for_of
  never_returns_ret never_returns_assign never_returns_await
  never_returns_perform never_returns_bind never_returns_try_catch
  never_returns_if never_returns_for_of : handler.

End HandlerFacts.


(* ================================================================== *)
(** * The upload route: properties *)
(* ================================================================== *)

Module UploadFacts.
Import Js JsFacts Handler Classify Upload.

(** ** Symbolic execution of [POST]

    [run] unfolds the handler as far as the next call whose outcome the
    world decides; [walk] follows the handler in program order and splits
    on each of these outcomes, so that every goal is one path through the
    handler. *)

Ltac run :=
  cbv beta iota zeta delta
    [handle respond POST extractArchive
     bind assign read await perform returning try_catch ret
     current log List.app assigned performed
     set_status set_message set_progress set_files set_totalFiles set_error
     set_fileType reset_status
     status message progress files totalFiles error fileType extractedFilePath
     http json negb stdout_of success items failure].

Ltac on x :=
  try (match goal with
       | |- context [match x with _ => _ end] => destruct x eqn:?; run
       end).

Ltac on_eqb :=
  try (match goal with
       | |- context [match FileType_eqb ?a ?b with _ => _ end] =>
           destruct (FileType_eqb a b) eqn:?; run
       end).

Ltac on_command :=
  try (match goal with
       | |- context [match extract_command ?a ?b ?c with _ => _ end] =>
           destruct (extract_command a b c) eqn:?; run
       end).

Ltac walk env :=
  run;
  on (formData env);
  try (match goal with
       | |- context [match ?o with Some _ => _ | None => _ end] =>
           is_var o; destruct o; run
       end);
  on_eqb;
  on (mkdirTemp env); on (arrayBuffer env); on (writeTemp env);
  on (extractedDirExists env); on (rmExtracted env); on (mkdirExtracted env);
  on_command;
  on (runExtract env);
  try (match goal with
       | |- context [parse_items ?t ?o] =>
           destruct (parse_items t o) eqn:?; cbn [List.length Nat.eqb]; run
       end);
  on (runFindFiles env); on (runFindDirs env); on (runCount env); on (rmTemp env).

(** An event is not among the finitely many of a log. *)
Ltac not_in_log H :=
  exfalso; cbn [In snd log] in H;
  repeat (destruct H as [H|H]; [discriminate H|]); exact H.

Ltac not_succeeded H :=
  exfalso; destruct H as (? & H & ?); cbn [fst] in H; injection H as <-;
  discriminate.

(** Membership in a list that is given element by element. *)
Ltac in_log := vm_compute; repeat (first [left; reflexivity | right]).

(** ** Transcripts *)

Example unzip_transcript :
  parse_items Zip
    ("Archive:  upload.zip" ++ newline
     ++ "   creating: app/" ++ newline
     ++ "  inflating: app/page.tsx  " ++ newline
     ++ "  inflating: " ++ newline)
  = ["app/"; "app/page.tsx"].
Proof. reflexivity. Qed.

Example unrar_transcript :
  parse_items Rar
    ("Extracting from upload.rar" ++ newline
     ++ "Creating    app                       OK" ++ newline
     ++ "Extracting  app/page.tsx              OK" ++ newline
     ++ "All OK" ++ newline)
  = ["from upload.rar"; "app                       OK";
     "app/page.tsx              OK"].
Proof. reflexivity. Qed.

Example tar_transcript :
  parse_items Tar ("app/" ++ newline ++ "app/page.tsx" ++ newline ++ newline)
  = ["app/"; "app/page.tsx"].
Proof. reflexivity. Qed.

(** ** The invariant of the status record *)

Ltac coherent_now :=
  unfold coherent; cbn [progress error status];
  split; intros; solve [discriminate | congruence | reflexivity].

(** One request: every status it assigns is coherent, whatever the status
    it found, because it first replaces the record. *)
Lemma request_coherent (env : Env) (s : ExtractionStatus) :
  Forall coherent (assigned (log (snd (handle env s))))
  /\ coherent (current (snd (handle env s))).
Proof.
  walk env; cbn [snd log current];
    (split; [repeat (constructor; [coherent_now|]); constructor | coherent_now]).
Qed.

(** While upload requests are served one after the other, each to its
    response, starting from the idle status of a fresh process, every
    status that a poller can observe, between any two assignments of any
    request and after it, is coherent. Requests that run at the same
    time are the matter of the modules [Overlap] and [OverlapFacts]. *)
Theorem status_coherent_at_every_point (envs : list Env) :
  Forall coherent (observable envs extractionStatus).
Proof.
  enough (G : forall s, coherent s -> Forall coherent (observable envs s)).
  { apply G. split; cbn; [discriminate | congruence]. }
  induction envs as [|env envs IH]; intros s Hs; cbn [observable].
  - constructor; [assumption | constructor].
  - constructor; [assumption|]. apply Forall_app.
    destruct (request_coherent env s) as [Hlog Hcur]. split; [assumption|].
    now apply IH.
Qed.

(** ** Unsupported file names *)

(** C3. An upload whose name classifies as Unknown is answered with 400
    and the validation error, and nothing outside the process has been
    touched by then. The status record, however, has been replaced by the
    record every request starts from and is left so: phase Extracting,
    progress 5 and an empty error text; the validation error is not
    recorded in it. *)
Theorem unsupported_upload_leaves_status_extracting
    (env : Env) (s : ExtractionStatus) (file : UploadedFile) :
  formData env = Resolves (Some file) ->
  detectFileType (name file) = Unknown ->
  fst (handle env s)
    = Some {| http := 400; json := JustError err_unsupported_format |}
  /\ performed (log (snd (handle env s))) = []
  /\ assigned (log (snd (handle env s))) = [reset_status]
  /\ status (current (snd (handle env s))) = Extracting
  /\ progress (current (snd (handle env s))) = 5
  /\ error (current (snd (handle env s))) = EmptyString.
Proof.
  intros E1 E2. run. rewrite E1. run. rewrite E2. cbn [FileType_eqb]. run.
  cbn [fst snd]. repeat split.
Qed.

Lemma unsupported_upload_leaves_status_extracting_witness :
  formData text_upload
    = Resolves (Some {| name := "notes.txt"; bytes := 2048 |})
  /\ detectFileType "notes.txt" = Unknown
  /\ fst (handle text_upload extractionStatus)
     = Some {| http := 400; json := JustError err_unsupported_format |}
  /\ status (current (snd (handle text_upload extractionStatus))) = Extracting
  /\ error (current (snd (handle text_upload extractionStatus))) = EmptyString.
Proof.
  split; [reflexivity|]. split; [reflexivity|].
  destruct (unsupported_upload_leaves_status_extracting text_upload
              extractionStatus {| name := "notes.txt"; bytes := 2048 |}
              eq_refl eq_refl) as (H1 & _ & _ & H2 & _ & H3).
  split; [exact H1|]. split; [exact H2 | exact H3].
Defined.

(** ** Archives without members *)

(** C4. When the extraction tool was run, exited successfully and no
    member name was recovered from its transcript, the request is answered
    with 500 and the error of an empty archive, and the status record ends
    in the Error phase with that error. *)
Theorem empty_extraction_is_an_error
    (env : Env) (s : ExtractionStatus) (file : UploadedFile)
    (out : string * string) :
  extraction_ran env s file ->
  runExtract env = Resolves out ->
  parse_items (detectFileType (name file)) (fst out ++ snd out) = [] ->
  fst (handle env s)
    = Some {| http := 500; json := StatusError err_empty_archive |}
  /\ status (current (snd (handle env s))) = Error
  /\ error (current (snd (handle env s))) = err_empty_archive.
Proof.
  intros (Eform & command & Ecmd & Hin) Eout Eitems. revert Hin.
  walk env; intros Hin; cbn [fst snd current status error];
    try congruence;
    try (repeat split; reflexivity);
    try not_in_log Hin.
Qed.

Lemma empty_upload_ran :
  extraction_ran empty_upload extractionStatus
    {| name := "empty.tar"; bytes := 2048 |}.
Proof.
  split; [reflexivity|]. eexists. split; [vm_compute; reflexivity|]. in_log.
Defined.

Lemma empty_extraction_is_an_error_witness :
  extraction_ran empty_upload extractionStatus
    {| name := "empty.tar"; bytes := 2048 |}
  /\ runExtract empty_upload = Resolves (EmptyString, EmptyString)
  /\ parse_items Tar EmptyString = []
  /\ fst (handle empty_upload extractionStatus)
     = Some {| http := 500; json := StatusError err_empty_archive |}
  /\ status (current (snd (handle empty_upload extractionStatus))) = Error.
Proof.
  split; [exact empty_upload_ran|]. split; [reflexivity|].
  split; [reflexivity|].
  destruct (empty_extraction_is_an_error empty_upload extractionStatus
              {| name := "empty.tar"; bytes := 2048 |}
              (EmptyString, EmptyString)
              empty_upload_ran eq_refl eq_refl) as (H1 & H2 & _).
  split; [exact H1 | exact H2].
Defined.

(** ** The staging directory *)

Lemma append_assoc (a b c : string) : (a ++ b) ++ c = a ++ (b ++ c).
Proof. induction a as [|x a IH]; simpl; congruence. Qed.

Lemma append_last_inj (a b : string) (c d : ascii) :
  a ++ String c EmptyString = b ++ String d EmptyString -> c = d.
Proof.
  revert b. induction a as [|x a IH]; intros [|y b] E; simpl in E.
  - congruence.
  - injection E as _ E. destruct b; discriminate.
  - injection E as _ E. destruct a; discriminate.
  - injection E as _ E. eauto.
Qed.

Lemma digits_last (s : string) :
  all_digits s = true -> s <> EmptyString ->
  exists s' c, s = s' ++ String c EmptyString /\ is_digit c = true.
Proof.
  induction s as [|x s IH]; intros H Hne; [congruence|].
  simpl in H. apply andb_true_iff in H as [Hx Hs].
  destruct s as [|y s].
  - exists EmptyString, x. auto.
  - destruct (IH Hs) as (s' & c & E & Hc); [discriminate|].
    exists (String x s'), c. simpl. now rewrite <- E.
Qed.

(** The staging directory ends in a digit, the extraction directory in
    a letter. *)
Lemma tempDir_not_extractedDir (env : Env) : extractedDir env <> tempDir env.
Proof.
  unfold extractedDir, tempDir, join. intros E.
  destruct (digits_last (decimal (now env)) (all_digits_decimal _)
              (decimal_nonempty _)) as (d & c & Ed & Hc).
  rewrite Ed in E.
  change "extracted-system" with ("extracted-syste" ++ "m") in E.
  rewrite <- !append_assoc in E. apply append_last_inj in E. subst c.
  discriminate.
Qed.

Ltac not_in_log_but_extracted env H :=
  exfalso; cbn [In snd log] in H;
  repeat (destruct H as [H|H];
          [first [discriminate H
                 | injection H as H; exact (tempDir_not_extractedDir env H)]|]);
  exact H.

(** C5. Once the extraction tool has been run, the removal of the staging
    directory is attempted exactly when the request succeeds: on the
    success path [rm] is called (and its failure swallowed), on every path
    that ends in an error response it is not called at all. *)
Theorem temp_dir_removed_only_on_success
    (env : Env) (s : ExtractionStatus) (file : UploadedFile) :
  extraction_ran env s file ->
  (In (Performed (Rm (tempDir env))) (log (snd (handle env s)))
   <-> succeeded (fst (handle env s))).
Proof.
  intros (Eform & command & Ecmd & Hin). revert Hin. unfold succeeded.
  walk env; intros Hin; try congruence; try not_in_log Hin;
    (split; intros H;
     [ first [ eexists; split; [reflexivity | reflexivity]
             | not_in_log_but_extracted env H ]
     | first [ not_succeeded H
             | cbn [In snd log]; tauto ] ]).
Qed.

Lemma broken_upload_ran :
  extraction_ran broken_upload extractionStatus
    {| name := "broken.tar"; bytes := 2048 |}.
Proof.
  split; [reflexivity|]. eexists. split; [vm_compute; reflexivity|]. in_log.
Defined.

Lemma temp_dir_removed_only_on_success_witness :
  extraction_ran broken_upload extractionStatus
    {| name := "broken.tar"; bytes := 2048 |}
  /\ fst (handle broken_upload extractionStatus)
     = Some {| http := 500;
               json := StatusError "Command failed: tar -xvf" |}
  /\ In (Performed (Mkdir (tempDir broken_upload)))
       (log (snd (handle broken_upload extractionStatus)))
  /\ ~ In (Performed (Rm (tempDir broken_upload)))
         (log (snd (handle broken_upload extractionStatus))).
Proof.
  split; [exact broken_upload_ran|]. split; [vm_compute; reflexivity|].
  split; [in_log|].
  intros Hin.
  destruct (proj1 (temp_dir_removed_only_on_success broken_upload
                     extractionStatus {| name := "broken.tar"; bytes := 2048 |}
                     broken_upload_ran) Hin) as (r & E & Hr).
  vm_compute in E. injection E as <-. discriminate Hr.
Defined.

(** ** The listing and the total *)

Lemma wc_l_app (a b : string) : wc_l (a ++ b) = wc_l a + wc_l b.
Proof.
  induction a as [|c a IH]; [reflexivity|]. cbn [append wc_l].
  rewrite IH. lia.
Qed.

Lemma print_lines_cons (p : string) (l : list string) :
  print_lines (p :: l) = p ++ newline ++ print_lines l.
Proof.
  unfold print_lines. cbn [map]. destruct l as [|q l].
  - unfold newline. cbn [map String.concat append]. reflexivity.
  - cbn [map String.concat]. cbn [append]. now rewrite append_assoc.
Qed.

(** [wc -l] counts every path [find] prints once, and once more for each
    line feed in it. *)
Lemma wc_l_print_lines (paths : list string) :
  wc_l (print_lines paths)
  = List.length paths + list_sum (map wc_l paths).
Proof.
  induction paths as [|p paths IH]; [reflexivity|].
  rewrite print_lines_cons, !wc_l_app, IH. cbn [map List.length].
  change (list_sum (wc_l p :: map wc_l paths))
    with (wc_l p + list_sum (map wc_l paths)).
  change (wc_l newline) with 1. lia.
Qed.

Lemma list_sum_zero (l : list nat) :
  Forall (fun n => n = 0) l -> list_sum l = 0.
Proof.
  induction 1 as [|n l Hn _ IH]; [reflexivity|].
  change (list_sum (n :: l)) with (n + list_sum l). now rewrite Hn, IH.
Qed.

Lemma count_line_read (paths : list string) (fallback : Z) :
  (paths = [] -> fallback = 0%Z) ->
  number_or (parseInt (trim (count_line paths))) fallback
  = Z.of_nat (List.length paths + list_sum (map wc_l paths)).
Proof.
  intros H. unfold count_line, newline. rewrite parseInt_count.
  rewrite wc_l_print_lines. unfold number_or.
  destruct paths as [|p paths]; [rewrite H by reflexivity; reflexivity|].
  reflexivity.
Qed.

Lemma length_flat_map_le {A B} (f : A -> list B) (l : list A) :
  (forall x, List.length (f x) <= 1) ->
  List.length (flat_map f l) <= List.length l.
Proof.
  intros H. induction l as [|x l IH]; simpl; [lia|].
  rewrite List.length_app. specialize (H x). lia.
Qed.

Lemma directory_entries_kind (env : Env) (dirs : list string) :
  Forall (fun e => type e = Directory) (directory_entries env dirs).
Proof.
  unfold directory_entries. induction (slice0 100 dirs) as [|d l IH]; simpl.
  - constructor.
  - apply Forall_app. split; [|assumption].
    destruct (truthy (relativePath env d)); repeat constructor.
Qed.

Lemma file_entries_kind (env : Env) (files : list string) :
  Forall (fun e => type e = File) (file_entries env files).
Proof.
  unfold file_entries. induction (slice0 500 files) as [|d l IH]; simpl.
  - constructor.
  - apply Forall_app. split; [|assumption].
    destruct (truthy (relativePath env d)); repeat constructor.
Qed.

Lemma directory_entries_length (env : Env) (dirs : list string) :
  List.length (directory_entries env dirs) <= 100.
Proof.
  unfold directory_entries, slice0.
  etransitivity; [apply length_flat_map_le | apply firstn_le_length].
  intros x. destruct (truthy (relativePath env x)); simpl; lia.
Qed.

Lemma file_entries_length (env : Env) (files : list string) :
  List.length (file_entries env files) <= 500.
Proof.
  unfold file_entries, slice0.
  etransitivity; [apply length_flat_map_le | apply firstn_le_length].
  intros x. destruct (truthy (relativePath env x)); simpl; lia.
Qed.

Lemma filter_none {A} (f : A -> bool) (l : list A) :
  Forall (fun x => f x = false) l -> filter f l = [].
Proof.
  induction 1 as [|x l Hx _ IH]; simpl; [reflexivity|]. now rewrite Hx.
Qed.

Lemma filter_length_le {A} (f : A -> bool) (l : list A) :
  List.length (filter f l) <= List.length l.
Proof.
  induction l as [|x l IH]; simpl; [lia|]. destruct (f x); simpl; lia.
Qed.

Lemma listing_caps (env : Env) (dirs files : list string) :
  List.length
    (filter is_file (directory_entries env dirs ++ file_entries env files)%list)
  <= 500
  /\ List.length
       (filter is_directory
          (directory_entries env dirs ++ file_entries env files)%list)
     <= 100.
Proof.
  rewrite !filter_app, !List.length_app. split.
  - rewrite (filter_none is_file (directory_entries env dirs)).
    + simpl. etransitivity; [apply filter_length_le | apply file_entries_length].
    + eapply Forall_impl; [|apply directory_entries_kind].
      intros e He. unfold is_file. now rewrite He.
  - rewrite (filter_none is_directory (file_entries env files)).
    + rewrite Nat.add_0_r.
      etransitivity; [apply filter_length_le | apply directory_entries_length].
    + eapply Forall_impl; [|apply file_entries_kind].
      intros e He. unfold is_directory. now rewrite He.
Qed.

Lemma no_files_listed (env : Env) :
  treeFiles env = [] ->
  Z.of_nat
    (List.length (nonblank_lines (head_n (print_lines (treeFiles env)) 1000)))
  = 0%Z.
Proof. intros ->. reflexivity. Qed.

(** C7. In every successful response, [totalFiles] is the number of
    line feeds in what [find] prints for the regular files below the
    extraction directory: their number, however many they are, plus the
    number of line feeds in their paths. It is the number of the files
    when no path holds a line feed, and more than that otherwise. The
    status record holds the same total and the same list; and the list
    has at most 500 file entries and at most 100 directory entries. *)
Theorem total_files_is_the_line_count
    (env : Env) (s : ExtractionStatus)
    (fl : list entry) (tf : Z) (ft : FileType) (dir : string) :
  fst (handle env s)
    = Some {| http := 200; json := StatusSuccess fl tf ft dir |} ->
  tf = Z.of_nat (List.length (treeFiles env)
                 + list_sum (map wc_l (treeFiles env)))
  /\ (Forall (fun p => wc_l p = 0) (treeFiles env) ->
      tf = Z.of_nat (List.length (treeFiles env)))
  /\ totalFiles (current (snd (handle env s))) = tf
  /\ files (current (snd (handle env s))) = fl
  /\ List.length (filter is_file fl) <= 500
  /\ List.length (filter is_directory fl) <= 100.
Proof.
  walk env; cbn [fst snd current totalFiles files]; intros E;
    try discriminate E; injection E as <- <- <- <-;
    rewrite count_line_read by apply no_files_listed;
    (split; [reflexivity|]);
    (split; [intros H; rewrite list_sum_zero by (now apply Forall_map);
             now rewrite Nat.add_0_r|]);
    (split; [reflexivity|]); (split; [reflexivity|]);
    apply listing_caps.
Qed.

(** One file whose name holds a line feed: the total is 2, and the list
    shows two files that do not exist. *)
Lemma total_files_is_the_line_count_witness :
  fst (handle newline_upload extractionStatus)
    = Some {| http := 200;
              json := StatusSuccess newline_listing 2 Tar
                        "/app/extracted-system" |}
  /\ List.length (treeFiles newline_upload) = 1
  /\ 2%Z = Z.of_nat (List.length (treeFiles newline_upload)
                     + list_sum (map wc_l (treeFiles newline_upload))).
Proof.
  assert (E : fst (handle newline_upload extractionStatus)
              = Some {| http := 200;
                        json := StatusSuccess newline_listing 2 Tar
                                  "/app/extracted-system" |})
    by (vm_compute; reflexivity).
  destruct (total_files_is_the_line_count newline_upload extractionStatus
              newline_listing 2 Tar "/app/extracted-system" E)
    as (H1 & _).
  split; [exact E|]. split; [reflexivity | exact H1].
Defined.

(** With plain names the total is the number of the files. *)
Example good_upload_total :
  fst (handle good_upload extractionStatus)
  = Some {| http := 200;
            json := StatusSuccess good_listing 1 TarGz
                      "/app/extracted-system" |}.
Proof. vm_compute. reflexivity. Qed.

(** Six hundred files: the total is 600, the list shows 500 of them. *)
Example big_upload_total :
  match fst (handle big_upload extractionStatus) with
  | Some {| http := 200; json := StatusSuccess fl tf _ _ |} =>
      tf = 600%Z /\ List.length (filter is_file fl) = 500
  | _ => False
  end.
Proof. vm_compute. split; reflexivity. Qed.

End UploadFacts.

(* ================================================================== *)
(** * The deploy route: properties *)
(* ================================================================== *)

Module DeployFacts.
Import Handler HandlerFacts Deploy.

(** ** The steps one by one *)

Lemma backupStep_oblivious env : oblivious (backupStep env).
Proof. unfold backupStep. auto 20 with handler. Qed.

Lemma copyStep_oblivious env : oblivious (copyStep env).
Proof. unfold copyStep, fallbackCopy. auto 30 with handler. Qed.

Lemma backupStep_never_returns env : never_returns (backupStep env).
Proof. unfold backupStep. auto 20 with handler. Qed.

Lemma copyStep_never_returns env : never_returns (copyStep env).
Proof. unfold copyStep, fallbackCopy. auto 30 with handler. Qed.

(** The copy step does its work as soon as [rsync] does. *)
Lemma copyStep_completes_with_rsync env :
  runRsync env = Resolves tt -> completes (copyStep env).
Proof.
  intros E w. unfold copyStep, try_catch, bind, assign, perform, await.
  rewrite E. eexists. eexists. reflexivity.
Qed.

(** The three optional steps end normally whatever their commands do:
    each of them catches what its commands throw. *)

Lemma installStep_completes env : completes (installStep env).
Proof.
  intros w. unfold installStep, try_catch, bind, assign, perform, await.
  destruct (runInstall env); eexists; eexists; reflexivity.
Qed.

Lemma prismaStep_completes env : completes (prismaStep env).
Proof.
  intros w. unfold prismaStep, try_catch, bind, assign, perform, await, ret.
  destruct (prismaSchemaExists env); [destruct (runGenerate env)|];
    eexists; eexists; reflexivity.
Qed.

Lemma dataCopyStep_completes env : completes (dataCopyStep env).
Proof.
  intros w. unfold dataCopyStep, try_catch, bind, assign, perform, await, ret.
  destruct (inExtracted env _); [|eexists; eexists; reflexivity].
  destruct (prismaDirExists env); cbn [negb];
    [|destruct (mkdirPrisma env)]; try destruct (runCpDb env);
    eexists; eexists; reflexivity.
Qed.

(** The restart step, when the sentinel can be written. *)
Lemma restartStep_run env w :
  writeRestart env = Resolves tt ->
  exists w',
    restartStep env w = (Normal tt, w')
    /\ status (current w') = Success
    /\ In (Performed (WriteFile (restartFile env))) (log w').
Proof.
  intros E. unfold restartStep, bind, assign, perform, await. rewrite E.
  eexists. split; [reflexivity|].
  cbn [current log status set_progress set_message set_status].
  split; [reflexivity|]. apply in_or_app. right. now left.
Qed.

(** ** The whole pipeline *)

(** Without an extracted tree the request is answered at once. *)
Lemma handle_without_extraction env s :
  extractedDirExists env = false ->
  handle env s
  = (Some {| http := 400; json := JustError err_no_extraction |},
     {| current := s; log := [] |}).
Proof.
  intros E. unfold handle, respond, POST, try_catch. rewrite E. reflexivity.
Qed.

(** Runs the next step of the pipeline with the fact [H] that it
    completes. *)
Ltac next H :=
  match goal with
  | |- context [bind ?m ?k ?w0] =>
      let a := fresh "a" in
      let w := fresh "w" in
      let E := fresh "E" in
      destruct (H w0) as (a & w & E); rewrite (bind_normal m k w0 a w E)
  end.

(** After the copy, nothing but the sentinel decides the outcome: Install,
    Prisma generation and the copy of the database are run, and whatever
    they do the handler goes on to the restart step. *)
Lemma optional_steps_then_restart env w :
  writeRestart env = Resolves tt ->
  exists w',
    (installStep env ;; prismaStep env ;; dataCopyStep env ;;
     restartStep env ;;
     returning (A:=response) success_response)%handler w
    = (Returned success_response, w')
    /\ status (current w') = Success
    /\ In (Performed (WriteFile (restartFile env))) (log w').
Proof.
  intros Hrestart.
  next (installStep_completes env).
  next (prismaStep_completes env).
  next (dataCopyStep_completes env).
  match goal with
  | |- context [bind (restartStep env) ?k ?w0] =>
      destruct (restartStep_run env w0 Hrestart) as (w' & E' & Hs & Hin);
      rewrite (bind_normal _ k w0 tt w' E')
  end.
  exists w'. unfold returning. auto.
Qed.





(** ** What a successful response tells *)

Ltac invert_step Hnr :=
  match goal with
  | H : succeeded _ |- _ =>
      match type of H with
      | context [bind ?m ?k ?w0] =>
          let a := fresh "a" in
          let w := fresh "w" in
          let E := fresh "E" in
          destruct (m w0) as [[a|?r|?e] w] eqn:E;
          [ rewrite (bind_normal m k w0 a w E) in H
          | exfalso; exact (Hnr w0 _ _ E)
          | rewrite (bind_thrown m k w0 _ w E) in H;
            cbv [try_catch respond bind assign read returning fst snd
                 current log] in H;
            destruct H as (? & H & ?); injection H as <-; discriminate ]
      end
  end.

Ltac skip_step Hc :=
  match goal with
  | H : succeeded _ |- _ =>
      match type of H with
      | context [bind ?m ?k ?w0] =>
          let a := fresh "a" in
          let w := fresh "w" in
          let E := fresh "E" in
          destruct (Hc w0) as (a & w & E);
          rewrite (bind_normal m k w0 a w E) in H
      end
  end.

(** A successful response comes from a run in which the three essential
    steps did their work, and it is always the same response. *)
Lemma success_inversion env s :
  succeeded (fst (handle env s)) ->
  fst (handle env s) = Some success_response
  /\ completes (backupStep env)
  /\ completes (copyStep env)
  /\ writeRestart env = Resolves tt.
Proof.
  intros H.
  destruct (extractedDirExists env) eqn:Hex.
  2:{ rewrite (handle_without_extraction env s Hex) in H.
      exfalso. destruct H as (r & E & Hr). injection E as <-. discriminate. }
  unfold handle, POST in H. unfold respond at 1, try_catch at 1 in H.
  rewrite Hex in H. cbn [negb] in H.
  rewrite (bind_normal (assign _) _ _ tt _ eq_refl) in H.
  invert_step (backupStep_never_returns env).
  assert (Hb : completes (backupStep env))
    by (eapply oblivious_completes; [apply backupStep_oblivious | eassumption]).
  invert_step (copyStep_never_returns env).
  assert (Hc : completes (copyStep env))
    by (eapply oblivious_completes; [apply copyStep_oblivious | eassumption]).
  assert (Hr : writeRestart env = Resolves tt).
  { skip_step (installStep_completes env).
    skip_step (prismaStep_completes env).
    skip_step (dataCopyStep_completes env).
    destruct (writeRestart env) as [[]|e] eqn:Er; [reflexivity|].
    exfalso. unfold restartStep in H.
    cbv [try_catch respond bind assign read returning perform await fst snd
         current log] in H.
    rewrite Er in H.
    destruct H as (? & H & ?); injection H as <-; discriminate. }
  split; [|auto].
  unfold handle, respond, POST, try_catch. rewrite Hex. cbn [negb].
  rewrite (bind_normal (assign _) _ _ tt _ eq_refl).
  next Hb. next Hc.
  match goal with
  | |- context [bind (installStep env) ?k ?w0] =>
      destruct (optional_steps_then_restart env w0 Hr) as (w' & E' & _);
      change (bind (installStep env) k w0)
        with ((installStep env ;; prismaStep env ;; dataCopyStep env ;;
               restartStep env ;;
               returning (A:=response) success_response)%handler w0);
      rewrite E'
  end.
  reflexivity.
Qed.

(** C6, as the code has it. Every successful response carries the same
    list of steps: backup, copy, install, prisma and restart, in this
    order, each marked [done]. For backup, copy and restart the mark is
    their outcome, since a successful response is only given when these
    three did their work; for install and prisma it is given whatever
    happened to them. *)
Theorem steps_are_always_reported_done (env : Env) (s : DeployStatus) :
  succeeded (fst (handle env s)) ->
  fst (handle env s) = Some success_response
  /\ json success_response
     = StatusSuccess "تم نشر النظام بنجاح!" 100 steps_reported
  /\ map report_step steps_reported
     = ["backup"; "copy"; "install"; "prisma"; "restart"]
  /\ Forall (fun r => report_status r = "done") steps_reported
  /\ step_succeeded env "backup"
  /\ step_succeeded env "copy"
  /\ step_succeeded env "restart".
Proof.
  intros H. destruct (success_inversion env s H) as (E & Hb & Hc & Hr).
  split; [exact E|]. split; [reflexivity|]. split; [reflexivity|].
  split; [repeat constructor|]. cbn [step_succeeded String.eqb Ascii.eqb Bool.eqb].
  auto.
Qed.

Lemma rough_deploy_succeeded : succeeded (fst (handle rough_deploy deployStatus)).
Proof. eexists. split; [vm_compute; reflexivity | reflexivity]. Defined.

Lemma steps_are_always_reported_done_witness :
  succeeded (fst (handle rough_deploy deployStatus))
  /\ fst (handle rough_deploy deployStatus) = Some success_response
  /\ Forall (fun r => report_status r = "done") steps_reported.
Proof.
  destruct (steps_are_always_reported_done rough_deploy deployStatus
              rough_deploy_succeeded) as (H1 & _ & _ & H2 & _).
  split; [exact rough_deploy_succeeded|]. split; [exact H1 | exact H2].
Defined.

(** C6, as the specification has it, fails: when Install fails the deploy
    still succeeds and its response marks the install step [done]. *)
Lemma failed_install_is_reported_done :
  runInstall rough_deploy = Rejects (ErrorObj "Command failed: bun install")
  /\ fst (handle rough_deploy deployStatus)
     = Some {| http := 200;
               json := StatusSuccess "تم نشر النظام بنجاح!" 100 steps_reported |}
  /\ In {| report_step := "install"; report_status := "done";
           report_message := "تم تثبيت الاعتمادات" |} steps_reported
  /\ ~ step_succeeded rough_deploy "install"
  /\ ~ reports_outcomes rough_deploy steps_reported.
Proof.
  split; [reflexivity|]. split; [vm_compute; reflexivity|].
  split; [right; right; left; reflexivity|].
  assert (Hno : ~ step_succeeded rough_deploy "install").
  { cbn. intros (out & E). discriminate E. }
  split; [exact Hno|].
  intros Hall. apply Hno.
  apply (Hall {| report_step := "install"; report_status := "done";
                 report_message := "تم تثبيت الاعتمادات" |}).
  - right; right; left; reflexivity.
  - reflexivity.
Qed.

(** ** Deploying before anything was extracted *)

(** C8. When there is no extracted tree, [POST] answers at once with the
    error that no extraction was found, and no effect on the world outside
    has been attempted: no backup directory, no copy, no later step. *)
Theorem deploy_without_extraction_fails_fast (env : Env) (s : DeployStatus) :
  extractedDirExists env = false ->
  fst (handle env s)
    = Some {| http := 400; json := JustError err_no_extraction |}
  /\ performed (log (snd (handle env s))) = []
  /\ log (snd (handle env s)) = [].
Proof.
  intros E. rewrite (handle_without_extraction env s E). auto.
Qed.

Lemma deploy_without_extraction_fails_fast_witness :
  extractedDirExists early_deploy = false
  /\ fst (handle early_deploy deployStatus)
     = Some {| http := 400; json := JustError err_no_extraction |}
  /\ performed (log (snd (handle early_deploy deployStatus))) = [].
Proof.
  split; [reflexivity|].
  destruct (deploy_without_extraction_fails_fast early_deploy deployStatus
              eq_refl) as (H1 & H2 & _).
  split; [exact H1 | exact H2].
Defined.

(** C10. When there is no extracted tree, the status record is never
    assigned: it is after the request what it was before, so a poller
    keeps seeing the state the previous run left. *)
Theorem deploy_without_extraction_keeps_status (env : Env) (s : DeployStatus) :
  extractedDirExists env = false ->
  current (snd (handle env s)) = s
  /\ assigned (log (snd (handle env s))) = []
  /\ GET (current (snd (handle env s))) = GET s.
Proof.
  intros E. rewrite (handle_without_extraction env s E). auto.
Qed.

Lemma deploy_without_extraction_keeps_status_witness :
  extractedDirExists early_deploy = false
  /\ current (snd (handle early_deploy finished)) = finished
  /\ status (GET (current (snd (handle early_deploy finished)))) = Success.
Proof.
  split; [reflexivity|].
  destruct (deploy_without_extraction_keeps_status early_deploy finished
              eq_refl) as (H1 & _ & H3).
  split; [exact H1|]. rewrite H3. reflexivity.
Defined.

End DeployFacts.

(* ================================================================== *)
(** * Rules for handlers *)
(* ================================================================== *)

Module HoareFacts.
Import Handler HandlerFacts Hoare.
Local Open Scope list_scope.

Section Rules.
Context {S R : Type}.
Implicit Types (w : world S) (P Q T : world S -> Prop).


Lemma triple_ret {A} P (a : A) : triple (R:=R) P (ret a) P.
Proof. intros w Hw. exact Hw. Qed.

Lemma triple_read P : triple (R:=R) P read P.
Proof. intros w Hw. exact Hw. Qed.

Lemma triple_returning {A} P (r : R) : triple P (returning (A:=A) r) P.
Proof. intros w Hw. exact Hw. Qed.

Lemma triple_await {A} P (r : result A) : triple (R:=R) P (await r) P.
Proof. intros w Hw. unfold await. now destruct r. Qed.

Lemma triple_assign P Q (f : S -> S) :
  (forall w, P w ->
     Q {| current := f (current w);
          log := log w ++ [Assigned (f (current w))] |}) ->
  triple (R:=R) P (assign f) Q.
Proof. intros H w Hw. apply H, Hw. Qed.

Lemma triple_perform {A} P Q (e : effect) (r : result A) :
  (forall w, P w ->
     Q {| current := current w; log := log w ++ [Performed e] |}) ->
  triple (R:=R) P (perform e r) Q.
Proof.
  intros H w Hw. unfold perform, await. destruct r; apply H, Hw.
Qed.

Lemma triple_bind {A B} P Q T (m : M S R A) (k : A -> M S R B) :
  triple P m Q -> (forall a, triple Q (k a) T) -> (forall w, Q w -> T w) ->
  triple P (bind m k) T.
Proof.
  intros Hm Hk HQ w Hw. specialize (Hm w Hw). unfold bind.
  destruct (m w) as [[a|r|e] w1]; cbn [snd] in *.
  - apply Hk, Hm.
  - apply HQ, Hm.
  - apply HQ, Hm.
Qed.

Lemma triple_try_catch {A} P Q T (m : M S R A) (h : exn -> M S R A) :
  triple P m Q -> (forall e, triple Q (h e) T) -> (forall w, Q w -> T w) ->
  triple P (try_catch m h) T.
Proof.
  intros Hm Hh HQ w Hw. specialize (Hm w Hw). unfold try_catch.
  destruct (m w) as [[a|r|e] w1]; cbn [snd] in *.
  - apply HQ, Hm.
  - apply HQ, Hm.
  - apply Hh, Hm.
Qed.

Lemma triple_if {A} P Q (c : bool) (m1 m2 : M S R A) :
  (c = true -> triple P m1 Q) -> (c = false -> triple P m2 Q) ->
  triple P (if c then m1 else m2) Q.
Proof. destruct c; auto. Qed.

Lemma triple_for_of {A} P (l : list A) (body : A -> M S R unit) :
  (forall x, In x l -> triple P (body x) P) -> triple P (for_of l body) P.
Proof.
  induction l as [|x l IH]; intros H; cbn [for_of].
  - apply triple_ret.
  - apply (triple_bind P P P); [apply H; now left | | auto].
    intros _. apply IH. intros y Hy. apply H. now right.
Qed.

(** *** Logs *)

Lemma assigned_app (l1 l2 : list (event S)) :
  assigned (l1 ++ l2) = assigned l1 ++ assigned l2.
Proof.
  induction l1 as [|[s|e] l1 IH]; cbn [assigned app]; [reflexivity | | assumption].
  now rewrite IH.
Qed.

Lemma performed_app (l1 l2 : list (event S)) :
  performed (l1 ++ l2) = performed l1 ++ performed l2.
Proof.
  induction l1 as [|[s|e] l1 IH]; cbn [performed app]; [reflexivity | assumption |].
  now rewrite IH.
Qed.






(** An effect that satisfies [P] keeps all effects in [P]; assignments
    do not matter. *)
Lemma effects_all_perform {A} (P : effect -> Prop) (e : effect) (r : result A) :
  P e -> triple (R:=R) (S:=S) (effects_all P) (perform e r) (effects_all P).
Proof.
  intros He. apply triple_perform. intros w H. unfold effects_all in *.
  cbn [log]. rewrite performed_app. apply Forall_app. split; [assumption|].
  cbn. now constructor.
Qed.

Lemma effects_all_assign (P : effect -> Prop) (f : S -> S) :
  triple (R:=R) (effects_all P) (assign f) (effects_all P).
Proof.
  apply triple_assign. intros w H. unfold effects_all in *. cbn [log].
  rewrite performed_app. cbn. now rewrite app_nil_r.
Qed.

End Rules.
End HoareFacts.

(* ================================================================== *)
(** * More about the deploy route *)
(* ================================================================== *)

Module DeployMore.
Import Handler HandlerFacts Hoare HoareFacts Deploy DeployFacts DeployNotions.
Local Open Scope list_scope.

Lemma snd_respond {S R} (m : M S R R) (w : world S) :
  snd (respond m w) = snd (m w).
Proof. unfold respond. now destruct (m w) as [[a|r|e] w']. Qed.

(** ** Progress and phase only go up *)














(** ** What a deploy removes *)

Lemma try_catch_resolved {S R A} (P : effect -> Prop) (e : effect) (a : A)
    (h : exn -> M S R A) :
  P e -> triple (effects_all P) (try_catch (perform e (Resolves a)) h)
           (effects_all P).
Proof.
  intros He w Hw. unfold try_catch, perform, await. cbn [snd].
  unfold effects_all in *. cbn [log]. rewrite performed_app.
  apply Forall_app. split; [assumption|]. cbn. now constructor.
Qed.

Ltac safe :=
  lazymatch goal with
  | |- triple ?J (bind _ _) ?J =>
      apply (triple_bind J J J); [safe | intros ?; safe | auto]
  | |- triple ?J (if _ then _ else _) ?J => apply triple_if; intros ?; safe
  | |- triple ?J (try_catch _ _) ?J =>
      apply (triple_try_catch J J J); [safe | intros ?; safe | auto]
  | |- triple ?J (for_of _ _) ?J => apply triple_for_of; intros ? ?; safe
  | |- triple ?J (assign _) ?J => apply effects_all_assign
  | |- triple ?J (perform _ _) ?J => apply effects_all_perform; try exact I
  | |- triple ?J (ret _) ?J => apply triple_ret
  | |- triple ?J read ?J => apply triple_read
  | |- triple ?J (returning _) ?J => apply triple_returning
  end.

Lemma copyStep_removes_allowed env :
  triple (effects_all (removal_allowed env)) (copyStep env)
    (effects_all (removal_allowed env)).
Proof.
  unfold copyStep.
  apply (triple_bind _ (effects_all (removal_allowed env)) _); [safe | intros _ | auto].
  apply (triple_bind _ (effects_all (removal_allowed env)) _); [safe | intros _ | auto].
  apply (triple_bind _ (effects_all (removal_allowed env)) _); [safe | intros _ | auto].
  apply (triple_bind _ (effects_all (removal_allowed env)) _); [ | intros _; safe | auto].
  destruct (runRsync env) as [[]|x] eqn:Ersync.
  - apply try_catch_resolved. exact I.
  - unfold fallbackCopy. safe.
    cbn [removal_allowed]. split; [eauto|].
    match goal with
    | Hin : In ?dir dirsToCopy |- _ => exists dir; auto
    end.
Qed.

Lemma POST_removes_allowed env :
  triple (effects_all (removal_allowed env)) (POST env)
    (effects_all (removal_allowed env)).
Proof.
  unfold POST.
  apply (triple_try_catch _ (effects_all (removal_allowed env)) _);
    [ | intros e; safe | auto].
  apply triple_if; intros _; [safe|].
  apply (triple_bind _ (effects_all (removal_allowed env)) _); [safe | intros _ | auto].
  apply (triple_bind _ (effects_all (removal_allowed env)) _);
    [unfold backupStep; safe | intros _ | auto].
  apply (triple_bind _ (effects_all (removal_allowed env)) _);
    [apply copyStep_removes_allowed | intros _ | auto].
  unfold installStep, prismaStep, dataCopyStep, restartStep. safe.
Qed.

(** A deploy removes nothing unless [rsync] failed, and then only
    directories of the project that are on the list of the fallback,
    exist, and have a counterpart in the extracted tree. In particular,
    with [rsync] at work nothing at all is removed. *)
Theorem deploy_removes_only_what_it_replaces (env : Env) (s : DeployStatus) :
  Forall (removal_allowed env) (performed (log (snd (handle env s))))
  /\ (runRsync env = Resolves tt ->
      forall p, ~ In (Rm p) (performed (log (snd (handle env s))))).
Proof.
  assert (H : Forall (removal_allowed env)
                (performed (log (snd (handle env s))))).
  { unfold handle. rewrite snd_respond.
    apply (POST_removes_allowed env). constructor. }
  split; [exact H|]. intros E p Hin.
  rewrite Forall_forall in H. destruct (H _ Hin) as ((x & Hx) & _). congruence.
Qed.

(** ** How a deploy ends *)

Lemma in_performed {S} (e : effect) (l : list (event S)) :
  In (Performed e) l <-> In e (performed l).
Proof.
  induction l as [|[s|e'] l IH]; cbn [In performed].
  - tauto.
  - split; [intros [H|H]; [discriminate | tauto] | tauto].
  - split; (intros [H|H]; [left; congruence | tauto]).
Qed.

(** What the handler of errors makes of a thrown value. *)
Lemma caught (e : exn) (w : world DeployStatus) :
  (assign (set_status Error) ;;
   assign (set_error (message_or e err_deploy)) ;;
   st <- read ;;
   returning (A:=response)
     {| http := 500; json := StatusError (error st) |})%handler w
  = (Returned {| http := 500; json := StatusError (message_or e err_deploy) |},
     {| current :=
          set_error (message_or e err_deploy) (set_status Error (current w));
        log := (log w
                ++ [Assigned (set_status Error (current w))])
               ++ [Assigned (set_error (message_or e err_deploy)
                               (set_status Error (current w)))] |}).
Proof. reflexivity. Qed.





(** [POST] answers with success exactly when the extracted tree exists,
    the Backup and the Copy step end normally and the sentinel is
    written. *)
Theorem deploy_succeeds_exactly_when (env : Env) (s : DeployStatus) :
  succeeded (fst (handle env s))
  <-> extractedDirExists env = true
      /\ completes (backupStep env)
      /\ completes (copyStep env)
      /\ writeRestart env = Resolves tt.
Proof.
  split.
  - intros H. destruct (success_inversion env s H) as (_ & Hb & Hc & Hr).
    split; [|auto]. destruct (extractedDirExists env) eqn:Hex; [reflexivity|].
    rewrite (handle_without_extraction env s Hex) in H.
    destruct H as (r & E & Hr'). injection E as <-. discriminate.
  - intros (Hex & Hb & Hc & Hr). exists success_response. split; [|reflexivity].
    unfold handle, respond, POST, try_catch. rewrite Hex. cbn [negb].
    rewrite (bind_normal (assign _) _ _ tt _ eq_refl).
    next Hb. next Hc.
    match goal with
    | |- context [bind (installStep env) ?k ?w0] =>
        destruct (optional_steps_then_restart env w0 Hr) as (w' & E' & _);
        change (bind (installStep env) k w0)
          with ((installStep env ;; prismaStep env ;; dataCopyStep env ;;
                 restartStep env ;;
                 returning (A:=response) success_response)%handler w0);
        rewrite E'
    end.
    reflexivity.
Qed.

(** ** When an essential step fails *)

Ltac differs :=
  let N := fresh "N" in
  split; intros N; try discriminate N; injection N as N;
  unfold rsync_command in N; cbn in N; discriminate N.

Lemma backupStep_before_install env :
  triple (effects_all (before_install env)) (backupStep env)
    (effects_all (before_install env)).
Proof. unfold backupStep. safe. differs. Qed.

Lemma copyStep_before_install env :
  triple (effects_all (before_install env)) (copyStep env)
    (effects_all (before_install env)).
Proof. unfold copyStep, fallbackCopy. safe; differs. Qed.

(** When the Copy step throws, [POST] answers 500 with the text of the
    error and the status ends in the Error phase; the installer has not
    been run and the sentinel has not been written. *)
Theorem failed_copy_stops_the_deploy (env : Env) (s : DeployStatus) :
  extractedDirExists env = true ->
  completes (backupStep env) ->
  fails (copyStep env) ->
  (exists text,
     fst (handle env s) = Some {| http := 500; json := StatusError text |}
     /\ error (current (snd (handle env s))) = text)
  /\ status (current (snd (handle env s))) = Error
  /\ ~ In (Performed (Exec "bun install")) (log (snd (handle env s)))
  /\ ~ In (Performed (WriteFile (restartFile env))) (log (snd (handle env s))).
Proof.
  intros Hex Hb Hc.
  remember (handle env s) as x eqn:Hx. revert Hx.
  unfold handle, POST, respond, try_catch. rewrite Hex. cbn [negb].
  rewrite (bind_normal (assign _) _ _ tt _ eq_refl).
  match goal with
  | |- context [bind (backupStep env) ?k ?w0] =>
      assert (H0 : effects_all (before_install env) w0) by constructor;
      pose proof (backupStep_before_install env w0 H0) as H1
  end.
  next Hb. rewrite E in H1. cbn [snd] in H1.
  match goal with
  | |- context [bind (copyStep env) ?k ?w0] =>
      pose proof (copyStep_before_install env w0 H1) as H2;
      destruct (Hc w0) as (e & w' & E')
  end.
  rewrite E' in H2. cbn [snd] in H2.
  rewrite (bind_thrown _ _ _ _ _ E'), caught. intros ->. cbn [fst snd current log].
  split; [eexists; split; reflexivity|]. split; [reflexivity|].
  unfold effects_all in H2. rewrite Forall_forall in H2.
  split; intros Hin; apply in_performed in Hin;
    rewrite !performed_app in Hin; cbn [performed] in Hin;
    rewrite !app_nil_r in Hin; destruct (H2 _ Hin) as [N1 N2]; congruence.
Qed.

Lemma stuck_backup_completes : completes (backupStep stuck_deploy).
Proof. intros w. eexists. eexists. reflexivity. Defined.

Lemma stuck_copy_fails : fails (copyStep stuck_deploy).
Proof. intros w. eexists. eexists. reflexivity. Defined.

Lemma failed_copy_stops_the_deploy_witness :
  extractedDirExists stuck_deploy = true
  /\ completes (backupStep stuck_deploy)
  /\ fails (copyStep stuck_deploy)
  /\ fst (handle stuck_deploy deployStatus)
     = Some {| http := 500;
               json := StatusError "EACCES: permission denied" |}
  /\ ~ In (Performed (WriteFile (restartFile stuck_deploy)))
         (log (snd (handle stuck_deploy deployStatus))).
Proof.
  split; [reflexivity|]. split; [exact stuck_backup_completes|].
  split; [exact stuck_copy_fails|]. split; [vm_compute; reflexivity|].
  exact (proj2 (proj2 (proj2
           (failed_copy_stops_the_deploy stuck_deploy deployStatus eq_refl
              stuck_backup_completes stuck_copy_fails)))).
Defined.





End DeployMore.

(* ================================================================== *)
(** * More about the upload route *)
(* ================================================================== *)

Module UploadMore.
Import Js JsFacts Handler HandlerFacts Hoare HoareFacts Classify ClassifyFacts.
Import Upload UploadFacts UploadNotions.
Local Open Scope list_scope.

(** ** How a request ends *)




(** ** When the extraction tool fails *)




(** ** The order of the effects *)

(** Whenever the extraction tool is run, this is what has happened
    before, in this order and nothing else: the staging directory was
    made, the upload written into it under the name of its kind, the
    previous extraction directory removed if there was one, and the
    extraction directory made anew. *)
Theorem extraction_starts_from_a_fresh_directory
    (env : Env) (s : ExtractionStatus) (file : UploadedFile) :
  extraction_ran env s file ->
  exists command later,
    extract_command (tempFilePath env (detectFileType (name file)))
      (extractedDir env) (detectFileType (name file)) = Some command
    /\ performed (log (snd (handle env s)))
       = [Mkdir (tempDir env);
          WriteFile (tempFilePath env (detectFileType (name file)))]
         ++ (if extractedDirExists env then [Rm (extractedDir env)] else [])
         ++ [Mkdir (extractedDir env); Exec command]
         ++ later.
Proof.
  intros (Eform & command & Ecmd & Hin). exists command. revert Hin.
  walk env; intros Hin; try congruence; try not_in_log Hin;
    match goal with
    | H1 : Resolves (Some _) = Resolves (Some _) |- _ =>
        injection H1 as ->
    end;
    match goal with
    | H1 : extract_command _ _ _ = Some ?c |- _ =>
        rewrite Ecmd in H1; injection H1 as <-
    end;
    eexists; (split; [exact Ecmd|]); cbn [snd log performed app];
    reflexivity.
Qed.

Lemma extraction_starts_from_a_fresh_directory_witness :
  extraction_ran empty_upload extractionStatus
    {| name := "empty.tar"; bytes := 2048 |}
  /\ In (Rm (extractedDir empty_upload))
       (performed (log (snd (handle empty_upload extractionStatus)))).
Proof.
  split; [exact empty_upload_ran|].
  destruct (extraction_starts_from_a_fresh_directory empty_upload
              extractionStatus _ empty_upload_ran)
    as (command & later & _ & E).
  rewrite E. right. right. left. reflexivity.
Defined.

(** The previous extraction is only removed once the upload has been
    accepted and staged: whenever the extraction directory is removed, the
    request carried a file of a supported kind, the staging directory was
    made and the file written into it. *)
Theorem previous_extraction_survives_failed_staging
    (env : Env) (s : ExtractionStatus) :
  In (Rm (extractedDir env)) (performed (log (snd (handle env s)))) ->
  exists file,
    formData env = Resolves (Some file)
    /\ detectFileType (name file) <> Unknown
    /\ mkdirTemp env = Resolves tt
    /\ arrayBuffer env = Resolves tt
    /\ writeTemp env = Resolves tt
    /\ extractedDirExists env = true.
Proof.
  walk env; cbn [snd log performed In]; intros Hin;
    try (exfalso;
         repeat (destruct Hin as [Hin|Hin];
                 [first [discriminate Hin
                        | injection Hin as Hin;
                          exact (tempDir_not_extractedDir env (eq_sym Hin))]|]);
         exact Hin);
    eexists; (split; [reflexivity|]);
    (split; [intros N; rewrite N in *; discriminate|]);
    repeat match goal with u : unit |- _ => destruct u end;
    repeat split; reflexivity.
Qed.

(** ** Progress *)



Lemma previous_extraction_survives_failed_staging_witness :
  In (Rm (extractedDir empty_upload))
    (performed (log (snd (handle empty_upload extractionStatus))))
  /\ writeTemp empty_upload = Resolves tt.
Proof.
  assert (Hin : In (Rm (extractedDir empty_upload))
                  (performed (log (snd (handle empty_upload extractionStatus)))))
    by (vm_compute; right; right; left; reflexivity).
  split; [exact Hin|].
  destruct (previous_extraction_survives_failed_staging empty_upload
              extractionStatus Hin) as (file & _ & _ & _ & _ & H & _).
  exact H.
Defined.

(** ** A request that carries an archive *)


End UploadMore.

(* ================================================================== *)
(** * The staged file and the listing *)
(* ================================================================== *)

Module UploadListing.
Import Js JsFacts Handler HandlerFacts Classify ClassifyFacts.
Import Upload UploadFacts UploadNotions.

(** ** The staged file *)

Lemma drop_app_more (a s : string) (k : nat) :
  drop (String.length a + k) (a ++ s) = drop k s.
Proof. induction a as [|c a IH]; simpl; auto. Qed.

(** A suffix no longer than the last part of a string is looked for in
    that part alone. *)
Lemma endsWith_app_long (a s t : string) :
  String.length t <= String.length s ->
  endsWith (a ++ s) t = endsWith s t.
Proof.
  intros H. unfold endsWith. rewrite length_app.
  replace (String.length a + String.length s - String.length t)
    with (String.length a + (String.length s - String.length t)) by lia.
  rewrite drop_app_more.
  replace (String.length t <=? String.length a + String.length s) with true
    by (symmetry; apply Nat.leb_le; lia).
  replace (String.length t <=? String.length s) with true
    by (symmetry; apply Nat.leb_le; lia).
  reflexivity.
Qed.

(** The file is staged under a name of its own kind: classifying the path
    of the staged file gives back the kind the upload was classified as,
    whatever the temporary directory is called. *)
Theorem staged_name_keeps_the_kind (env : Env) (fileType : FileType) :
  fileType <> Unknown ->
  detectFileType (tempFilePath env fileType) = fileType.
Proof.
  intros Hk. unfold detectFileType, tempFilePath, join.
  rewrite toLowerCase_app.
  destruct fileType; try congruence;
    rewrite !endsWith_app_long by (cbn; lia); reflexivity.
Qed.

Lemma staged_name_keeps_the_kind_witness :
  Zip <> Unknown /\ detectFileType (tempFilePath good_upload Zip) = Zip.
Proof.
  assert (H : Zip <> Unknown) by discriminate.
  split; [exact H | exact (staged_name_keeps_the_kind good_upload Zip H)].
Defined.

(** ** Paths below the extraction directory *)

Lemma startsWith_app (a b : string) : startsWith (a ++ b) a = true.
Proof.
  induction a as [|c a IH]; simpl; [now destruct b|].
  now rewrite Ascii.eqb_refl.
Qed.

Lemma remove_first_prefix (a b : string) : remove_first a (a ++ b) = b.
Proof.
  destruct a as [|c a]; [now destruct b|].
  pose proof (startsWith_app (String c a) b) as Hs.
  pose proof (drop_app_length (String c a) b) as Hd.
  cbn [append] in Hs, Hd |- *. cbn [remove_first]. now rewrite Hs.
Qed.

Lemma relativePath_below (env : Env) (p : string) :
  relativePath env (below env p) = p.
Proof.
  unfold relativePath, below. rewrite remove_first_prefix. simpl.
  reflexivity.
Qed.

Lemma relativePath_root (env : Env) :
  relativePath env (extractedDir env) = EmptyString.
Proof.
  unfold relativePath.
  replace (extractedDir env) with (extractedDir env ++ EmptyString) at 2.
  - now rewrite remove_first_prefix.
  - induction (extractedDir env); simpl; congruence.
Qed.

(** ** What [find] prints, read back line by line *)

Lemma split_lines_line (p rest : string) :
  no_line_feed p = true ->
  split_lines (p ++ newline ++ rest) = p :: split_lines rest.
Proof.
  induction p as [|c p IH]; intros H.
  - reflexivity.
  - cbn [no_line_feed] in H. apply andb_true_iff in H as [Hc Hp].
    apply negb_true_iff in Hc. cbn [append split_lines]. rewrite Hc.
    fold (append p (newline ++ rest)). now rewrite (IH Hp).
Qed.

Lemma split_lines_print (l : list string) :
  Forall (fun p => no_line_feed p = true) l ->
  split_lines (print_lines l) = (l ++ [EmptyString])%list.
Proof.
  induction 1 as [|p l Hp _ IH]; [reflexivity|].
  rewrite print_lines_cons, split_lines_line by assumption. now rewrite IH.
Qed.

Lemma head_n_line (p rest : string) (n : nat) :
  no_line_feed p = true ->
  head_n (p ++ newline ++ rest) (S n) = p ++ newline ++ head_n rest n.
Proof.
  induction p as [|c p IH]; intros H.
  - reflexivity.
  - cbn [no_line_feed] in H. apply andb_true_iff in H as [Hc Hp].
    apply negb_true_iff in Hc. cbn [append head_n]. rewrite Hc.
    fold (append p (newline ++ rest)). now rewrite (IH Hp).
Qed.

Lemma head_n_zero (s : string) : head_n s 0 = EmptyString.
Proof. now destruct s. Qed.

Lemma head_n_print (l : list string) (n : nat) :
  Forall (fun p => no_line_feed p = true) l ->
  head_n (print_lines l) n = print_lines (firstn n l).
Proof.
  intros H. revert n. induction H as [|p l Hp _ IH]; intros n.
  - now destruct n.
  - destruct n as [|n]; [apply head_n_zero|].
    cbn [firstn]. rewrite !print_lines_cons, head_n_line by assumption.
    now rewrite IH.
Qed.

Lemma truthy_trim (s : string) : truthy (trim s) = has_ink s.
Proof.
  unfold trim. induction s as [|c s IH]; [reflexivity|].
  cbn [trimStart has_ink]. destruct (is_space c) eqn:Hc; [exact IH|].
  cbn [negb orb trimEnd]. destruct (trimEnd s); [now rewrite Hc | reflexivity].
Qed.

Lemma Forall_firstn {A} (P : A -> Prop) (n : nat) (l : list A) :
  Forall P l -> Forall P (firstn n l).
Proof.
  intros H. revert n. induction H as [|x l Hx _ IH]; intros [|n]; cbn [firstn];
    constructor; auto.
Qed.

(** Of paths that are each on a line of their own and not blank, the
    first [n] come back. *)
Lemma lines_read_back (l : list string) (n : nat) :
  Forall (fun p => no_line_feed p = true /\ has_ink p = true) l ->
  nonblank_lines (head_n (print_lines l) n) = firstn n l.
Proof.
  intros H.
  assert (Hl : Forall (fun p => no_line_feed p = true) l)
    by (eapply Forall_impl; [|exact H]; now intros p [? _]).
  rewrite head_n_print by assumption. unfold nonblank_lines.
  rewrite split_lines_print by now apply Forall_firstn.
  rewrite filter_app. cbn [filter trim trimStart trimEnd truthy].
  rewrite app_nil_r. apply forallb_filter_id.
  apply forallb_forall. intros p Hp. rewrite truthy_trim.
  apply (Forall_firstn _ n) in H.
  now apply (proj1 (Forall_forall _ _) H).
Qed.

(** ** The listing of a successful upload *)

Lemma no_line_feed_app (a b : string) :
  no_line_feed (a ++ b) = no_line_feed a && no_line_feed b.
Proof.
  induction a as [|c a IH]; [reflexivity|]. cbn [append no_line_feed].
  now rewrite IH, andb_assoc.
Qed.

Lemma has_ink_app (a b : string) : has_ink (a ++ b) = has_ink a || has_ink b.
Proof.
  induction a as [|c a IH]; [reflexivity|]. cbn [append has_ink].
  now rewrite IH, orb_assoc.
Qed.

Lemma extractedDir_line (env : Env) :
  no_line_feed (cwd env) = true ->
  no_line_feed (extractedDir env) = true /\ has_ink (extractedDir env) = true.
Proof.
  intros H. unfold extractedDir, join.
  rewrite no_line_feed_app, has_ink_app, H. split; [reflexivity|].
  apply orb_true_r.
Qed.

Lemma below_line (env : Env) (p : string) :
  no_line_feed (cwd env) = true -> no_line_feed p = true ->
  no_line_feed (below env p) = true /\ has_ink (below env p) = true.
Proof.
  intros H Hp. destruct (extractedDir_line env H) as [H1 H2]. unfold below.
  rewrite no_line_feed_app, has_ink_app, H1, H2.
  cbn [andb orb append no_line_feed]. now rewrite Hp.
Qed.

Lemma below_lines (env : Env) (l : list string) :
  no_line_feed (cwd env) = true -> Forall plain_name l ->
  Forall (fun p => no_line_feed p = true /\ has_ink p = true)
    (map (below env) l).
Proof.
  intros H Hl. apply Forall_map. eapply Forall_impl; [|exact Hl].
  intros p [_ Hp]. now apply below_line.
Qed.

Lemma directory_entries_below (env : Env) (l : list string) :
  Forall plain_name l ->
  flat_map
    (fun dir =>
       if truthy (relativePath env dir)
       then [{| path := relativePath env dir; size := 0; type := Directory |}]
       else [])
    (map (below env) l)
  = map directory_entry l.
Proof.
  induction 1 as [|p l [Hp _] _ IH]; [reflexivity|].
  cbn [map flat_map]. rewrite relativePath_below, IH.
  destruct p; [congruence | reflexivity].
Qed.

Lemma file_entries_below (env : Env) (l : list string) :
  Forall plain_name l ->
  flat_map
    (fun file =>
       if truthy (relativePath env file)
       then [{| path := relativePath env file;
                size := match statSize env file with
                        | Resolves n => n
                        | Rejects _ => 0
                        end;
                type := File |}]
       else [])
    (map (below env) l)
  = map (file_entry env) l.
Proof.
  induction 1 as [|p l [Hp _] _ IH]; [reflexivity|].
  cbn [map flat_map]. rewrite relativePath_below, IH.
  destruct p; [congruence | reflexivity].
Qed.

Lemma firstn_twice {A} (i j : nat) (l : list A) :
  i <= j -> firstn i (firstn j l) = firstn i l.
Proof. intros H. rewrite firstn_firstn. now rewrite Nat.min_l. Qed.

(** The directories [find] printed, the extraction directory first, as
    the response lists them. *)
Lemma directories_listed (env : Env) (ds : list string) :
  no_line_feed (cwd env) = true -> Forall plain_name ds ->
  directory_entries env
    (nonblank_lines
       (head_n (print_lines (extractedDir env :: map (below env) ds)) 500))
  = map directory_entry (firstn 99 ds).
Proof.
  intros H Hds. rewrite lines_read_back
    by (constructor; [now apply extractedDir_line | now apply below_lines]).
  unfold directory_entries, slice0. rewrite firstn_twice by lia.
  change 100 with (S 99). rewrite firstn_cons. cbn [flat_map].
  rewrite relativePath_root. cbn [truthy List.app]. rewrite firstn_map.
  apply directory_entries_below. now apply Forall_firstn.
Qed.

Lemma files_listed (env : Env) (fs : list string) :
  no_line_feed (cwd env) = true -> Forall plain_name fs ->
  file_entries env
    (nonblank_lines (head_n (print_lines (map (below env) fs)) 1000))
  = map (file_entry env) (firstn 500 fs).
Proof.
  intros H Hfs. rewrite lines_read_back by now apply below_lines.
  unfold file_entries, slice0. rewrite firstn_twice by lia.
  rewrite firstn_map. apply file_entries_below. now apply Forall_firstn.
Qed.

(** When [find] prints the extraction directory first and then the
    directories [ds] below it, and the files [fs] below it, a successful
    response lists, by their paths relative to the extraction directory,
    the first 99 of [ds] (the extraction directory itself takes one of
    the 100 places and is then left out) followed by the first 500 of
    [fs], each file with the size [stat] gives for it or 0 when [stat]
    fails. *)
Theorem successful_listing_is_the_tree
    (env : Env) (s : ExtractionStatus) (ds fs : list string)
    (fl : list entry) (tf : Z) (ft : FileType) (dir : string) :
  no_line_feed (cwd env) = true ->
  treeDirs env = extractedDir env :: map (below env) ds ->
  treeFiles env = map (below env) fs ->
  Forall plain_name ds -> Forall plain_name fs ->
  fst (handle env s)
    = Some {| http := 200; json := StatusSuccess fl tf ft dir |} ->
  fl = (map directory_entry (firstn 99 ds)
        ++ map (file_entry env) (firstn 500 fs))%list.
Proof.
  intros Hcwd Hd Hf Hds Hfs.
  walk env; cbn [fst]; intros E; try discriminate E;
    injection E as <- <- <- <-; rewrite Hd, Hf;
    rewrite directories_listed, files_listed by assumption; reflexivity.
Qed.

Lemma successful_listing_is_the_tree_witness :
  fst (handle listed_upload extractionStatus)
  = Some {| http := 200;
            json := StatusSuccess
                      [ {| path := "src"; size := 0; type := Directory |};
                        {| path := "pub"; size := 0; type := Directory |};
                        {| path := "src/a.ts"; size := 7; type := File |};
                        {| path := "pub/b c.png"; size := 0; type := File |} ]
                      2 TarGz "/app/extracted-system" |}.
Proof.
  assert (E : exists fl,
             fst (handle listed_upload extractionStatus)
             = Some {| http := 200;
                       json := StatusSuccess fl 2 TarGz
                                 "/app/extracted-system" |})
    by (eexists; vm_compute; reflexivity).
  destruct E as (fl & E). rewrite E.
  assert (Hds : Forall plain_name ["src"; "pub"])
    by (repeat constructor; discriminate).
  assert (Hfs : Forall plain_name ["src/a.ts"; "pub/b c.png"])
    by (repeat constructor; discriminate).
  rewrite (successful_listing_is_the_tree listed_upload extractionStatus
             ["src"; "pub"] ["src/a.ts"; "pub/b c.png"] fl 2 TarGz
             "/app/extracted-system" eq_refl eq_refl eq_refl Hds Hfs E).
  reflexivity.
Defined.

End UploadListing.

(* ================================================================== *)
(** * Facts about the page *)
(* ================================================================== *)

Module PageFacts.
Import Js JsFacts Handler HandlerFacts Classify ClassifyFacts Page.

(** ** The page and the upload route read a name alike *)

Lemma FileType_eqb_eq (a b : FileType) : FileType_eqb a b = true <-> a = b.
Proof. destruct a, b; simpl; split; congruence. Qed.

(** The page accepts a file name exactly when the upload route gives it
    a kind, and then tells its kind by the same word: what the page
    sends is never answered with the error of an unsupported format,
    and what the route would take is never held back. *)
Theorem page_and_route_read_names_alike (filename : string) :
  (isSupportedFile filename = true <-> detectFileType filename <> Unknown)
  /\ getFileType filename = FileType_string (detectFileType filename).
Proof.
  unfold isSupportedFile, getFileType, detectFileType, SUPPORTED_FORMATS.
  cbn [existsb].
  destruct (endsWith (toLowerCase filename) ".tar.gz"),
    (endsWith (toLowerCase filename) ".tgz"),
    (endsWith (toLowerCase filename) ".tar"),
    (endsWith (toLowerCase filename) ".zip"),
    (endsWith (toLowerCase filename) ".rar");
    cbn [orb FileType_string]; (split; [split|reflexivity]);
    first [discriminate | congruence | reflexivity].
Qed.

(** ** One click on the upload card *)

(** Runs a handler of the page on a component. *)
Ltac click :=
  cbv beta iota zeta delta
    [after handleFileUpload handleDeploy resetUpload fetch throw
     upload_answer deploy_answer
     bind assign read await returning try_catch ret current log snd fst
     json text code body negb
     setUploadStatus setDeployStatus calling
     uploadStatus deployStatus fileInput fetched
     status message progress files totalFiles error fileType
     deploy_status deploy_message deploy_progress deploy_error
     upload_error upload_files upload_totalFiles upload_fileType
     result_error result_message message_or].


Lemma supported_name (filename : string) :
  detectFileType filename <> Unknown -> isSupportedFile filename = true.
Proof.
  unfold isSupportedFile, detectFileType, SUPPORTED_FORMATS. cbn [existsb].
  destruct (endsWith (toLowerCase filename) ".tar.gz"),
    (endsWith (toLowerCase filename) ".tgz"),
    (endsWith (toLowerCase filename) ".tar"),
    (endsWith (toLowerCase filename) ".zip"),
    (endsWith (toLowerCase filename) ".rar");
    cbn [orb]; congruence.
Qed.

Lemma unsupported_name (filename : string) :
  detectFileType filename = Unknown -> isSupportedFile filename = false.
Proof.
  unfold isSupportedFile, detectFileType, SUPPORTED_FORMATS. cbn [existsb].
  destruct (endsWith (toLowerCase filename) ".tar.gz"),
    (endsWith (toLowerCase filename) ".tgz"),
    (endsWith (toLowerCase filename) ".tar"),
    (endsWith (toLowerCase filename) ".zip"),
    (endsWith (toLowerCase filename) ".rar");
    cbn [orb]; congruence.
Qed.


(** A file whose name the upload route would not take is not sent: the
    page calls [fetch] for nothing, shows the error of the format with
    the progress at 0, and leaves the deploy card as it is. *)
Theorem unsupported_file_is_not_sent
    (net : result (Response Upload.body)) (file : Upload.UploadedFile)
    (h : Home) :
  detectFileType (Upload.name file) = Unknown ->
  let h' := after (handleFileUpload net file) h in
  fetched h' = fetched h
  /\ deployStatus h' = deployStatus h
  /\ status (uploadStatus h') = Error
  /\ message (uploadStatus h') = Plain err_format
  /\ progress (uploadStatus h') = 0.
Proof.
  intros Hk. apply unsupported_name in Hk. click. rewrite Hk. click.
  repeat split.
Qed.

Lemma unsupported_file_is_not_sent_witness :
  detectFileType (Upload.name notes_txt) = Unknown
  /\ fetched (after (handleFileUpload (Rejects NotAnError) notes_txt) mounted)
     = [].
Proof.
  split; [reflexivity|].
  exact (proj1 (unsupported_file_is_not_sent (Rejects NotAnError) notes_txt
                  mounted eq_refl)).
Defined.

(** A click on the upload card never leaves it at uploading. The page
    ends at success, with 100 percent and no error text, only when
    [fetch] brought back a response that is [ok] and whose body is
    JSON, and then the card shows the list, the total and the kind of
    that body; in every other case it ends at error with 0 percent and
    no list. [fetch] is called once at most. *)
Theorem upload_click_settles
    (net : result (Response Upload.body)) (file : Upload.UploadedFile)
    (h : Home) :
  let h' := after (handleFileUpload net file) h in
  ((exists response value,
      net = Resolves response /\ ok response = true
      /\ body response = Json value
      /\ status (uploadStatus h') = Success
      /\ progress (uploadStatus h') = 100
      /\ error (uploadStatus h') = None
      /\ files (uploadStatus h') = upload_files value
      /\ totalFiles (uploadStatus h') = upload_totalFiles value
      /\ fileType (uploadStatus h') = upload_fileType value)
   \/ (status (uploadStatus h') = Error
       /\ progress (uploadStatus h') = 0
       /\ files (uploadStatus h') = None))
  /\ (fetched h' = fetched h \/ fetched h' = upload_url :: fetched h).
Proof.
  click. destruct (isSupportedFile (Upload.name file)); click.
  2:{ split; [right|left]; repeat split. }
  destruct net as [[c [value|why raw]]|e]; click.
  - destruct (ok {| code := c; body := Json value |}) eqn:Hok; click.
    + split; [left|right; reflexivity].
      exists {| code := c; body := Json value |}, value. repeat split.
      exact Hok.
    + split; [right|right]; repeat split.
  - destruct raw; click; (split; [right|right]); repeat split.
  - split; [right|right]; repeat split.
Qed.

(** When the answer to an accepted file is not JSON, the card ends at
    error, and the text it shows depends on reading the body again: the
    page's own sentence for an answer it cannot read when [text()] gives
    the body, the message of the failure of [text()] when it does not. *)
Theorem unreadable_answer_is_an_error
    (response : Response Upload.body) (why : exn) (raw : result string)
    (file : Upload.UploadedFile) (h : Home) :
  isSupportedFile (Upload.name file) = true ->
  body response = NotJson why raw ->
  let h' := after (handleFileUpload (Resolves response) file) h in
  status (uploadStatus h') = Error
  /\ error (uploadStatus h')
     = Some match raw with
            | Resolves _ => err_unreadable
            | Rejects e => message_or e err_unexpected
            end
  /\ fetched h' = upload_url :: fetched h.
Proof.
  intros Hs Hb. destruct response as [c b]. cbn [body] in Hb. subst b.
  click. rewrite Hs. click. destruct raw; click; repeat split.
Qed.

Lemma unreadable_answer_is_an_error_witness :
  error
    (uploadStatus
       (after
          (handleFileUpload
             (Resolves {| code := 502;
                          body := NotJson (ErrorObj "Unexpected token <")
                                    (Rejects (ErrorObj "Body is unusable")) |})
             system_tgz)
          mounted))
  = Some "Body is unusable".
Proof.
  exact (proj1 (proj2
           (unreadable_answer_is_an_error
              {| code := 502;
                 body := NotJson (ErrorObj "Unexpected token <")
                           (Rejects (ErrorObj "Body is unusable")) |}
              (ErrorObj "Unexpected token <")
              (Rejects (ErrorObj "Body is unusable"))
              system_tgz mounted eq_refl eq_refl))).
Defined.

(** ** The upload card in front of the upload route *)



(** ** The deploy card in front of the deploy route *)


(** A click on the deploy card calls [fetch] once, leaves the upload
    card alone and never leaves the deploy card at deploying: it ends at
    success with 100 percent only when the response is [ok] and its body
    is JSON, and at error with 0 percent in every other case, showing
    the message of what was thrown. *)
Theorem deploy_click_settles
    (net : result (Response Deploy.body)) (h : Home) :
  let h' := after (handleDeploy net) h in
  fetched h' = deploy_url :: fetched h
  /\ uploadStatus h' = uploadStatus h
  /\ isDeploying h' = false
  /\ ((exists response value,
         net = Resolves response /\ ok response = true
         /\ body response = Json value
         /\ deploy_status (deployStatus h') = Deploy.Success
         /\ deploy_progress (deployStatus h') = 100)
      \/ (deploy_status (deployStatus h') = Deploy.Error
          /\ deploy_progress (deployStatus h') = 0)).
Proof.
  click. destruct net as [[c [value|why raw]]|e]; click.
  - destruct (ok {| code := c; body := Json value |}) eqn:Hok; click.
    + repeat split. left.
      exists {| code := c; body := Json value |}, value. repeat split.
      exact Hok.
    + repeat split. right. repeat split.
  - repeat split. right. repeat split.
  - repeat split. right. repeat split.
Qed.

End PageFacts.

(* ================================================================== *)
(** * Uploads in flight at the same time *)
(* ================================================================== *)

Module OverlapFacts.
Import Handler HandlerFacts HoareFacts Classify Upload UploadFacts Threads.
Local Open Scope list_scope.

(** ** A thread run alone is the handler it stands for *)

Section Alone.
Context {S R : Type}.
Implicit Types (w : world S).

Lemma bind_ext {A B} (m1 m2 : M S R A) (k1 k2 : A -> M S R B) w :
  (forall w, m1 w = m2 w) -> (forall a w, k1 a w = k2 a w) ->
  Handler.bind m1 k1 w = Handler.bind m2 k2 w.
Proof.
  intros Hm Hk. unfold Handler.bind. rewrite Hm.
  destruct (m2 w) as [[a|r|e] w']; [apply Hk | reflexivity | reflexivity].
Qed.

Lemma try_catch_ext {A} (m1 m2 : M S R A) (h1 h2 : exn -> M S R A) w :
  (forall w, m1 w = m2 w) -> (forall e w, h1 e w = h2 e w) ->
  Handler.try_catch m1 h1 w = Handler.try_catch m2 h2 w.
Proof.
  intros Hm Hh. unfold Handler.try_catch. rewrite Hm.
  destruct (m2 w) as [[a|r|e] w']; [reflexivity | reflexivity | apply Hh].
Qed.

Lemma alone_bind {A B} (m : thread S R A) (k : A -> thread S R B) w :
  alone (Threads.bind m k) w
  = Handler.bind (alone m) (fun a => alone (k a)) w.
Proof.
  revert w. induction m as [[a|r|e]|f m IH|g IH|e m IH|m IH]; intros w;
    try reflexivity; cbn [Threads.bind alone]; unfold Handler.bind in *;
    cbn [alone]; auto.
Qed.

Lemma alone_try_catch {A} (m : thread S R A) (h : exn -> thread S R A) w :
  alone (Threads.try_catch m h) w
  = Handler.try_catch (alone m) (fun e => alone (h e)) w.
Proof.
  revert w. induction m as [[a|r|e]|f m IH|g IH|e m IH|m IH]; intros w;
    try reflexivity; cbn [Threads.try_catch alone];
    unfold Handler.try_catch in *; cbn [alone]; auto.
Qed.

Lemma alone_await {A} (r : result A) w :
  alone (R:=R) (Threads.await r) w = Handler.await r w.
Proof. now destruct r. Qed.

Lemma alone_perform {A} (e : effect) (r : result A) w :
  alone (R:=R) (Threads.perform e r) w = Handler.perform e r w.
Proof. now destruct r. Qed.

Lemma alone_awaited {A} (m : thread S R A) w :
  alone (awaited m) w = alone m w.
Proof.
  unfold awaited. rewrite alone_bind. unfold Handler.bind.
  now destruct (alone m w) as [[a|r|e] w'].
Qed.

Lemma alone_gather {A B} (l : list A) (body : A -> thread S R (list B))
    (f : A -> list B) w :
  (forall x w, alone (body x) w = (Normal (f x), w)) ->
  alone (gather l body) w = (Normal (flat_map f l), w).
Proof.
  intros H. induction l as [|x l IH]; [reflexivity|].
  cbn [gather flat_map]. rewrite alone_bind. unfold Handler.bind at 1.
  rewrite H, alone_bind. unfold Handler.bind. now rewrite IH.
Qed.

(** Resuming a thread once does not change what it does in the end. *)
Lemma alone_advance {A} (t : thread S R A) w :
  alone (fst (advance t w)) (snd (advance t w)) = alone t w.
Proof.
  revert w. induction t as [o|f t IH|g IH|e t IH|t IH]; intros w;
    cbn [advance alone]; auto.
Qed.

(** A thread only adds to the log, and what it adds and how it ends
    does not depend on the log it finds. *)
Lemma alone_frame {A} (t : thread S R A) (s : S) (l : list (event S)) :
  alone t {| current := s; log := l |}
  = (fst (alone t {| current := s; log := [] |}),
     {| current := current (snd (alone t {| current := s; log := [] |}));
        log := l ++ log (snd (alone t {| current := s; log := [] |})) |}).
Proof.
  revert s l. induction t as [o|f t IH|g IH|e t IH|t IH]; intros s l;
    cbn [alone current log fst snd].
  - now rewrite app_nil_r.
  - rewrite (IH (f s) (l ++ [Assigned (f s)])), (IH (f s) ([] ++ _)).
    cbn [fst snd current log]. now rewrite <- app_assoc.
  - apply IH.
  - rewrite (IH s (l ++ [Performed e])), (IH s ([] ++ _)).
    cbn [fst snd current log]. now rewrite <- app_assoc.
  - apply IH.
Qed.

(** [n] resumptions of one thread. *)
Fixpoint advanced {A} (n : nat) (t : thread S R A) w
  : thread S R A * world S :=
  match n with
  | O => (t, w)
  | Datatypes.S n' => advanced n' (fst (advance t w)) (snd (advance t w))
  end.

Lemma alone_advanced {A} (n : nat) (t : thread S R A) w :
  alone (fst (advanced n t w)) (snd (advanced n t w)) = alone t w.
Proof.
  revert t w. induction n as [|n IH]; intros t w; cbn [advanced];
    [reflexivity|]. now rewrite IH, alone_advance.
Qed.

Lemma alone_extends {A} (t : thread S R A) w :
  exists l, log (snd (alone t w)) = log w ++ l.
Proof.
  destruct w as [s l0]. rewrite alone_frame. cbn [snd log]. eauto.
Qed.

(** What a thread has logged when it is suspended is the beginning of
    what it logs when run alone. *)
Lemma advanced_prefix {A} (n : nat) (t : thread S R A) w :
  exists l, log (snd (alone t w)) = log (snd (advanced n t w)) ++ l.
Proof. rewrite <- (alone_advanced n t w). apply alone_extends. Qed.

Lemma put_middle {A} (done rest : list (thread S R A)) (t t' : thread S R A) :
  put (List.length done) t' (done ++ t :: rest) = done ++ t' :: rest.
Proof. induction done as [|x done IH]; cbn; [reflexivity | now rewrite IH]. Qed.

(** Resuming request [k] leaves the other requests as they are. *)
Lemma run_block {A} (n : nat) (done rest : list (thread S R A))
    (t : thread S R A) w :
  run (repeat (List.length done) n) (done ++ t :: rest, w)
  = (done ++ fst (advanced n t w) :: rest, snd (advanced n t w)).
Proof.
  revert t w. induction n as [|n IH]; intros t w; [reflexivity|].
  cbn [repeat run fold_left advanced]. unfold resume at 2. cbn [fst snd].
  rewrite nth_error_app2, Nat.sub_diag by lia. cbn [nth_error].
  destruct (advance t w) as [t' w'] eqn:E. rewrite put_middle.
  cbn [fst snd]. apply IH.
Qed.

Lemma run_app {A} (s1 s2 : list nat) (p : pool S R A) :
  run (s1 ++ s2) p = run s2 (run s1 p).
Proof. apply fold_left_app. Qed.

(** A request that is not there cannot be resumed. *)
Lemma run_beyond {A} (schedule : list nat) (p : pool S R A) :
  Forall (fun i => List.length (fst p) <= i) schedule -> run schedule p = p.
Proof.
  induction 1 as [|i l Hi _ IH]; [reflexivity|].
  cbn [run fold_left]. unfold resume at 2.
  destruct (nth_error (fst p) i) eqn:E; [|exact IH].
  apply nth_error_None in Hi. congruence.
Qed.

End Alone.

Lemma alone_file_entries (env : Env) (files : list string) w :
  alone (Overlap.file_entries env files) w
  = (Normal (file_entries env files), w).
Proof.
  unfold Overlap.file_entries, file_entries. apply alone_gather.
  intros file w'. cbv zeta. destruct (Js.truthy (relativePath env file));
    [|reflexivity].
  rewrite alone_try_catch. unfold Handler.try_catch. rewrite alone_bind.
  unfold Handler.bind. rewrite alone_await.
  now destruct (statSize env file).
Qed.

(** Brings both sides to their next statement. *)
Ltac same :=
  intros; cbv zeta;
  lazymatch goal with
  | |- alone (Threads.try_catch _ _) _ = _ =>
      rewrite alone_try_catch; apply try_catch_ext; same
  | |- alone (Threads.bind (Overlap.file_entries _ _) _) _ = _ =>
      rewrite alone_bind; unfold Handler.bind at 1;
      rewrite alone_file_entries; same
  | |- alone (Threads.bind _ _) _ = _ =>
      rewrite alone_bind; apply bind_ext; same
  | |- alone (awaited _) _ = _ => rewrite alone_awaited; same
  | |- alone (Overlap.extractArchive _ _ _ _) _ = _ =>
      unfold Overlap.extractArchive, extractArchive; same
  | |- alone (match ?x with _ => _ end) _ = _ => destruct x; same
  | |- _ => first [reflexivity | apply alone_await | apply alone_perform]
  end.

(** The thread of [POST], run with nothing in between, is [POST]. *)
Lemma alone_POST (env : Env) (w : world ExtractionStatus) :
  alone (Overlap.POST env) w = POST env w.
Proof. unfold Overlap.POST, POST. same. Qed.

(** ** Requests served in turn *)

Lemma in_turn_from (k : nat) (ns : list nat) :
  Forall (fun i => k <= i) (Overlap.in_turn k ns).
Proof.
  revert k. induction ns as [|n ns IH]; intros k; cbn [Overlap.in_turn];
    [constructor|].
  apply Forall_app. split.
  - apply Forall_forall. intros i Hi. apply repeat_spec in Hi. lia.
  - eapply Forall_impl; [|apply IH]. cbn. intros; lia.
Qed.

(** However often a request is resumed, the statuses it has assigned so
    far are coherent, whatever the status it found. *)
Lemma suspended_request_coherent (env : Env) (n : nat)
    (w : world ExtractionStatus) :
  Forall coherent (assigned (log w)) ->
  Forall coherent
    (assigned (log (snd (advanced n (Overlap.POST env) w)))).
Proof.
  intros Hw.
  destruct (advanced_prefix n (Overlap.POST env) w) as (l & E).
  destruct w as [s l0]. rewrite alone_frame in E. cbn [snd log] in E.
  assert (H : Forall coherent
                (assigned
                   (l0 ++ log (snd (alone (Overlap.POST env)
                                      {| current := s; log := [] |}))))).
  { rewrite assigned_app. apply Forall_app. split; [exact Hw|].
    rewrite alone_POST.
    pose proof (proj1 (request_coherent env s)) as Hr.
    unfold handle, respond in Hr.
    destruct (POST env {| current := s; log := [] |}) as [[a|r|e] w'];
      exact Hr. }
  rewrite E, assigned_app in H. now apply Forall_app in H.
Qed.

Lemma served_in_turn (ns : list nat) :
  forall (envs : list Env)
         (done : list (thread ExtractionStatus response response))
         (w : world ExtractionStatus),
    Forall coherent (assigned (log w)) ->
    Forall coherent
      (assigned
         (log (snd (run (Overlap.in_turn (List.length done) ns)
                      (done ++ map Overlap.POST envs, w))))).
Proof.
  induction ns as [|n ns IH]; intros envs done w Hw; [exact Hw|].
  destruct envs as [|env envs].
  - rewrite run_beyond; [exact Hw|]. cbn [map fst]. rewrite app_nil_r.
    apply in_turn_from.
  - cbn [Overlap.in_turn map]. unfold Overlap.Handled.
    rewrite run_app, run_block.
    pose proof (IH envs (done ++ [fst (advanced n (Overlap.POST env) w)])
                  (snd (advanced n (Overlap.POST env) w))
                  (suspended_request_coherent env n w Hw)) as G.
    rewrite List.length_app, Nat.add_1_r, <- app_assoc in G. exact G.
Qed.

(** C9. While upload requests are served in turn, none resumed once a
    later one has started, every status the singleton goes through, from
    the idle status of a fresh process on, between any two assignments
    of any request and after it, whether the request has ended or not,
    is coherent: its progress is 100 only if its phase is Success, and
    its error text is non-empty only if its phase is Error. *)
Theorem status_coherent_when_served_in_turn
    (envs : list Env) (ns : list nat) :
  Forall coherent
    (extractionStatus :: Overlap.seen (Overlap.in_turn 0 ns) envs).
Proof.
  constructor.
  - split; cbn; [discriminate | congruence].
  - apply (served_in_turn ns envs [] {| current := extractionStatus;
                                        log := [] |}).
    constructor.
Qed.

(** Two uploads in flight at once, the broken tarball and the good one.
    When [tar] of the broken one fails after the good one was listed,
    the singleton is left at Error with 100 percent; when the good one
    is listed after [tar] of the broken one failed, it is left at
    Success with the error text of the other request. Neither status is
    coherent. *)
Lemma overlapping_uploads_break_coherence :
  (let after :=
     current (snd (run Overlap.late_failure
                     (Overlap.arriving [broken_upload; good_upload]))) in
   In after (Overlap.seen Overlap.late_failure [broken_upload; good_upload])
   /\ status after = Error /\ progress after = 100
   /\ ~ coherent after)
  /\ (let after :=
        current (snd (run Overlap.late_success
                        (Overlap.arriving [broken_upload; good_upload]))) in
      In after
        (Overlap.seen Overlap.late_success [broken_upload; good_upload])
      /\ status after = Success
      /\ error after = "Command failed: tar -xvf"%string
      /\ ~ coherent after).
Proof.
  split; cbv zeta.
  - split; [in_log|]. split; [vm_compute; reflexivity|].
    split; [vm_compute; reflexivity|].
    intros [H _]. assert (E : Error = Success) by (apply H; vm_compute; reflexivity).
    discriminate E.
  - split; [in_log|]. split; [vm_compute; reflexivity|].
    split; [vm_compute; reflexivity|].
    intros [_ H]. assert (E : Success = Error).
    { apply H. vm_compute. discriminate. }
    discriminate E.
Qed.

End OverlapFacts.
